(** * pgscv, internal/collector/diskstats_linux.go

    A shallow embedding of the block-device statistics collector and the
    properties its specification states about it.

    Go strings and byte slices are byte sequences: [string] with [ascii]
    read as a byte.  A Go [error] is its message; [None] is [nil].  A
    function with several results returns a tuple, as in Go.  A call
    that can panic returns an option, [None] being the panic, and
    [Update] returns, with the samples it has sent, how it ended.  The
    [log] calls write to the process log only and are left out. *)

From Stdlib Require Import ZArith String Ascii List Lia PrimFloat Permutation.
From stdpp Require Import gmap strings list fin_maps.

Open Scope string_scope.
Set Default Proof Using "Type".

Definition error : Type := string.

Definition byte (c : ascii) : N := N_of_ascii c.

(** ** Package strings *)

Module strings.

(** [unicode.IsSpace] at the head of [s]: the number of bytes of the rune
    there when it is white space, 0 otherwise.  The white-space runes are
    U+0009..U+000D, U+0020, U+0085, U+00A0, U+1680, U+2000..U+200A, U+2028,
    U+2029, U+202F, U+205F and U+3000; none of their UTF-8 encodings can
    begin inside the encoding of another rune. *)
Definition spaceWidth (s : string) : nat :=
  match s with
  | String c0 r0 =>
    let b0 := byte c0 in
    if (b0 =? 0x20)%N || ((0x09 <=? b0)%N && (b0 <=? 0x0D)%N) then 1
    else match r0 with
    | String c1 r1 =>
      let b1 := byte c1 in
      if (b0 =? 0xC2)%N && ((b1 =? 0x85)%N || (b1 =? 0xA0)%N) then 2
      else match r1 with
      | String c2 _ =>
        let b2 := byte c2 in
        if (b0 =? 0xE1)%N && (b1 =? 0x9A)%N && (b2 =? 0x80)%N then 3
        else if (b0 =? 0xE2)%N && (b1 =? 0x80)%N &&
                (((0x80 <=? b2)%N && (b2 <=? 0x8A)%N) || (b2 =? 0xA8)%N ||
                 (b2 =? 0xA9)%N || (b2 =? 0xAF)%N) then 3
        else if (b0 =? 0xE2)%N && (b1 =? 0x81)%N && (b2 =? 0x9F)%N then 3
        else if (b0 =? 0xE3)%N && (b1 =? 0x80)%N && (b2 =? 0x80)%N then 3
        else 0
      | EmptyString => 0
      end
    | EmptyString => 0
    end
  | EmptyString => 0
  end.

(** Each byte of [s] with whether it belongs to a white-space rune;
    [skip] counts the bytes still owed to the rune being read. *)
Fixpoint markSpaces (s : string) (skip : nat) : list (ascii * bool) :=
  match s with
  | EmptyString => []
  | String c s' =>
    match skip with
    | S k => (c, true) :: markSpaces s' k
    | O =>
      match spaceWidth s with
      | O => (c, false) :: markSpaces s' 0
      | S k => (c, true) :: markSpaces s' k
      end
    end
  end.

Definition consField (f : string) (fs : list string) : list string :=
  match f with
  | EmptyString => fs
  | _ => f :: fs
  end.

(** The field that starts at the head of [l] (empty when the head is white
    space) and the fields after it. *)
Fixpoint splitFields (l : list (ascii * bool)) : string * list string :=
  match l with
  | [] => (EmptyString, [])
  | (c, true) :: l' => let '(f, fs) := splitFields l' in (EmptyString, consField f fs)
  | (c, false) :: l' => let '(f, fs) := splitFields l' in (String c f, fs)
  end.

(** [strings.Fields]: the maximal runs of bytes outside white space. *)
Definition Fields (s : string) : list string :=
  let '(f, fs) := splitFields (markSpaces s 0) in consField f fs.

(** The piece in progress at the head of [s] and the pieces after it, cut
    at the occurrences of [sep] found from left to right; [skip] counts
    the bytes of a separator still to pass. *)
Fixpoint cut (sep s : string) (skip : nat) : string * list string :=
  match s with
  | EmptyString => (EmptyString, [])
  | String c s' =>
    match skip with
    | S k => cut sep s' k
    | O =>
      if String.prefix sep s
      then let '(p, ps) := cut sep s' (String.length sep - 1) in (EmptyString, p :: ps)
      else let '(p, ps) := cut sep s' 0 in (String c p, ps)
    end
  end.

(** [strings.Split] for a separator that is not empty (with an empty
    separator Go splits into runes; the collector never does that). *)
Definition Split (s sep : string) : list string :=
  let '(p, ps) := cut sep s 0 in p :: ps.

End strings.

(** ** Package bytes *)

Module bytes.

Definition inCutset (cutset : string) (c : ascii) : bool :=
  existsb (Ascii.eqb c) (list_ascii_of_string cutset).

Fixpoint TrimLeft (s cutset : string) : string :=
  match s with
  | EmptyString => EmptyString
  | String c s' => if inCutset cutset c then TrimLeft s' cutset else s
  end.

Fixpoint TrimRight (s cutset : string) : string :=
  match s with
  | EmptyString => EmptyString
  | String c s' =>
    match TrimRight s' cutset with
    | EmptyString => if inCutset cutset c then EmptyString else String c EmptyString
    | t => String c t
    end
  end.

(** [bytes.Trim]: [s] without its leading and trailing bytes in [cutset]
    (a cutset of ASCII characters, as both calls here have). *)
Definition Trim (s cutset : string) : string :=
  TrimRight (TrimLeft s cutset) cutset.

End bytes.

(** ** Package bufio *)

Module io.

Definition EOF : error := "EOF".

(** An [io.Reader] as the scanner sees it: the bytes its [Read] calls
    deliver, in all, and how it ends: at end of file ([None]) or with an
    I/O error.  The end is reported by a [Read] of its own, after the
    last bytes, as a file or a buffer in memory reports it. *)
Record Reader : Type := mkReader {
  rd_data : string;
  rd_err : option error
}.

End io.

Module bufio.

Definition MaxScanTokenSize : Z := 64 * 1024.

Definition defaultBufSize : nat := 4096.

Definition ErrTooLong : error := "bufio.Scanner: token too long".

(** [dropCR]: a line without its final carriage return, when it has one. *)
Fixpoint dropCR (line : string) : string :=
  match line with
  | EmptyString => EmptyString
  | String c EmptyString => if Ascii.eqb c "013" then EmptyString else line
  | String c rest => String c (dropCR rest)
  end.

(** The lines of [data]: its pieces between line feeds, without the empty
    piece after a final line feed (or of empty data). *)
Fixpoint dropLastEmpty (ls : list string) : list string :=
  match ls with
  | [] => []
  | [EmptyString] => []
  | l :: ls' => l :: dropLastEmpty ls'
  end.

Definition rawLines (data : string) : list string :=
  dropLastEmpty (strings.Split data (String "010" EmptyString)).

(** A line the scanner's buffer cannot hold: the buffer grows to
    [MaxScanTokenSize] bytes, and a line is found when its line feed, or
    the end of the input after it, is seen before the buffer is full. *)
Definition tooLong (line : string) : bool :=
  (MaxScanTokenSize <=? Z.of_nat (String.length line))%Z.

(** A [Scanner] with the default split function, [ScanLines], is given by
    what it does when run to the end: the tokens its [Scan]/[Text] calls
    yield one after the other, and what [Err] returns once [Scan] has
    returned false.  A line that is too long stops the scan with
    [ErrTooLong]; otherwise [Err] is the reader's error, and nil when the
    reader ended at end of file. *)
Fixpoint scanFrom (ls : list string) (rerr : option error) : list string * option error :=
  match ls with
  | [] => ([], rerr)
  | l :: ls' =>
    if tooLong l then ([], Some ErrTooLong)
    else let '(ts, e) := scanFrom ls' rerr in (dropCR l :: ts, e)
  end.

Definition NewScanner (r : io.Reader) : list string * option error :=
  scanFrom (rawLines (io.rd_data r)) (io.rd_err r).

Fixpoint take_string (n : nat) (s : string) : string :=
  match n, s with
  | S k, String c s' => String c (take_string k s')
  | _, _ => EmptyString
  end.

(** The bytes of [s] before its first line feed, when it has one. *)
Fixpoint beforeLF (s : string) : option string :=
  match s with
  | EmptyString => None
  | String c s' =>
    if Ascii.eqb c "010" then Some EmptyString
    else option_map (String c) (beforeLF s')
  end.

(** The first [ReadLine] of a [bufio.NewReader] over a [bytes.NewBuffer]
    of [content] (the [isPrefix] result is dropped, as both callers drop
    it).  The reader's buffer has [defaultBufSize] bytes: a line that does
    not end within them is returned cut to the buffer. *)
Definition ReadLine (content : string) : string * option error :=
  match content with
  | EmptyString => (EmptyString, Some io.EOF)
  | _ =>
    let buf := take_string defaultBufSize content in
    match beforeLF buf with
    | Some line => (dropCR line, None)
    | None =>
      if Nat.eqb (String.length buf) defaultBufSize then (dropCR buf, None)
      else (buf, None)
    end
  end.

End bufio.

(** ** Package regexp

    The regular expressions of the two patterns of the collector, after
    parsing: literals, character classes given by their ranges, sequence,
    alternation, [+], and the anchors [^] and [$] (without the multi-line
    flag: the beginning and the end of the text). *)

Module regexp.

Inductive Regexp : Type :=
| Eps
| Char (c : ascii)
| Class (ranges : list (ascii * ascii))
| Cat (a b : Regexp)
| Alt (a b : Regexp)
| Plus (a : Regexp)
| BeginText
| EndText.

Definition inRange (c : ascii) (r : ascii * ascii) : bool :=
  (byte (fst r) <=? byte c)%N && (byte c <=? byte (snd r))%N.

Definition inClass (ranges : list (ascii * ascii)) (c : ascii) : bool :=
  existsb (inRange c) ranges.

Definition orElse (x y : option nat) : option nat :=
  match x with
  | Some e => Some e
  | None => y
  end.

(** One or more rounds of [f], as many as possible first; a round that
    consumes nothing is the last one.  [n] bounds the number of rounds. *)
Fixpoint rounds (f : nat -> string -> (nat -> string -> option nat) -> option nat)
    (k : nat -> string -> option nat) (n i : nat) (s : string) : option nat :=
  match n with
  | O => None
  | S n' =>
    f i s (fun j t => orElse (if (j <=? i)%nat then None else rounds f k n' j t) (k j t))
  end.

(** The backtracking matcher: [run r i s k] matches [r] at offset [i] of
    the text, where [s] is what is left of it, and hands the offset and
    the rest after the match to [k]; the first success in the order of
    preference of Go's regexp (leftmost-first: the left branch of an
    alternation, the longer repetition) is the result. *)
Fixpoint run (r : Regexp) (i : nat) (s : string)
    (k : nat -> string -> option nat) : option nat :=
  match r with
  | Eps => k i s
  | Char c =>
    match s with
    | String c' s' => if Ascii.eqb c' c then k (S i) s' else None
    | EmptyString => None
    end
  | Class ranges =>
    match s with
    | String c' s' => if inClass ranges c' then k (S i) s' else None
    | EmptyString => None
    end
  | Cat a b => run a i s (fun j t => run b j t k)
  | Alt a b => orElse (run a i s k) (run b i s k)
  | Plus a => rounds (run a) k (S (String.length s)) i s
  | BeginText => if (i =? 0)%nat then k i s else None
  | EndText =>
    match s with
    | EmptyString => k i s
    | String _ _ => None
    end
  end.

(** The leftmost match in the text from offset [i] on: its first and its
    last offset. *)
Fixpoint search (re : Regexp) (i : nat) (s : string) : option (nat * nat) :=
  match run re i s (fun j _ => Some j) with
  | Some e => Some (i, e)
  | None =>
    match s with
    | String _ s' => search re (S i) s'
    | EmptyString => None
    end
  end.

(** [Regexp.MatchString] *)
Definition MatchString (re : Regexp) (s : string) : bool :=
  match search re 0 s with
  | Some _ => true
  | None => false
  end.

(** [Regexp.Find]: the text of the leftmost match, [None] for nil. *)
Definition Find (re : Regexp) (b : string) : option string :=
  match search re 0 b with
  | Some (i, e) => Some (String.substring i (e - i) b)
  | None => None
  end.

(** *** Parsing

    [Compile] reads the fragment of Go's syntax the collector's patterns
    are written in: literals, [|], [( )], [+], [^], [$], [\d], an escaped
    punctuation character, and classes [[...]] of characters and ranges.
    As in Go, inside a class [[] stands for itself and so does a [-] before
    the closing bracket, and outside a class a []] with no class to close
    stands for itself.  Anything else (the other operators and escapes,
    negated and named classes, bytes outside ASCII) is outside this model
    and reported as an error. *)

Definition digit : Regexp := Class [("0", "9")%char].

Definition isPunct (c : ascii) : bool :=
  negb (inClass [("0", "9"); ("a", "z"); ("A", "Z")]%char c) && (byte c <? 0x80)%N.

(** The items of a class up to its closing bracket, and what follows it. *)
Fixpoint parseClass (first : bool) (s : string) (n : nat)
    : option (list (ascii * ascii) * string) :=
  match n with
  | O => None
  | S n' =>
    match s with
    | EmptyString => None
    | String c s1 =>
      if Ascii.eqb c "]" && negb first then Some ([], s1)
      else if Ascii.eqb c "\" || (Ascii.eqb c "^" && first) || (0x80 <=? byte c)%N ||
              (Ascii.eqb c "[" && String.prefix ":" s1) then None
      else
        match s1 with
        | String d (String hi s2) =>
          if Ascii.eqb d "-" && negb (Ascii.eqb hi "]")
          then
            if Ascii.eqb hi "\" || (byte hi <? byte c)%N || (0x80 <=? byte hi)%N then None
            else option_map (fun '(rs, t) => ((c, hi) :: rs, t)) (parseClass false s2 n')
          else option_map (fun '(rs, t) => ((c, c) :: rs, t)) (parseClass false s1 n')
        | _ => option_map (fun '(rs, t) => ((c, c) :: rs, t)) (parseClass false s1 n')
        end
    end
  end.

Definition catOf (a b : Regexp) : Regexp :=
  match b with
  | Eps => a
  | _ => Cat a b
  end.

(** A run of [+] after an atom. *)
Fixpoint parsePlus (a : Regexp) (s : string) : Regexp * string :=
  match s with
  | String c s' => if Ascii.eqb c "+" then parsePlus (Plus a) s' else (a, s)
  | EmptyString => (a, s)
  end.

(** An alternation, read up to the end of the pattern or an unmatched
    closing parenthesis; [parseCat] reads one of its branches. *)
Fixpoint parseAlt (n : nat) (s : string) : option (Regexp * string) :=
  match n with
  | O => None
  | S n' =>
    match parseCat n' s with
    | Some (a, String c s') =>
      if Ascii.eqb c "|"
      then option_map (fun '(b, t) => (Alt a b, t)) (parseAlt n' s')
      else Some (a, String c s')
    | other => other
    end
  end
with parseCat (n : nat) (s : string) : option (Regexp * string) :=
  match n with
  | O => None
  | S n' =>
    match s with
    | EmptyString => Some (Eps, s)
    | String c s' =>
      if Ascii.eqb c "|" || Ascii.eqb c ")" then Some (Eps, s)
      else
        let atom : option (Regexp * string) :=
          if Ascii.eqb c "(" then
            match parseAlt n' s' with
            | Some (a, String c' t) => if Ascii.eqb c' ")" then Some (a, t) else None
            | _ => None
            end
          else if Ascii.eqb c "[" then
            option_map (fun '(rs, t) => (Class rs, t)) (parseClass true s' n')
          else if Ascii.eqb c "\" then
            match s' with
            | String e t =>
              if Ascii.eqb e "d" then Some (digit, t)
              else if isPunct e then Some (Char e, t) else None
            | EmptyString => None
            end
          else if Ascii.eqb c "^" then Some (BeginText, s')
          else if Ascii.eqb c "$" then Some (EndText, s')
          else if inClass [("*", "+"); ("?", "?"); (".", "."); ("{", "{")]%char c ||
                  (0x80 <=? byte c)%N then None
          else Some (Char c, s') in
        match atom with
        | Some (a, t) =>
          let '(a', t') := parsePlus a t in
          option_map (fun '(b, u) => (catOf a' b, u)) (parseCat n' t')
        | None => None
        end
    end
  end.

(** [regexp.Compile] *)
Definition Compile (expr : string) : Regexp + error :=
  match parseAlt (2 * String.length expr + 2) expr with
  | Some (re, EmptyString) => inl re
  | _ => inr ("error parsing regexp: " ++ expr)
  end.

(** [regexp.MustCompile]: Go panics where [Compile] fails; the one pattern
    it is called with compiles. *)
Definition MustCompile (expr : string) : Regexp :=
  match Compile expr with
  | inl re => re
  | inr _ => Eps
  end.

End regexp.

(** ** The library models on small inputs *)

Definition LF : string := String "010" EmptyString.

Definition CR : string := String "013" EmptyString.

Example Fields_line :
  strings.Fields "   8       0 sda 9253 1728" = ["8"; "0"; "sda"; "9253"; "1728"].
Proof. reflexivity. Qed.

(** A no-break space (U+00A0, the bytes C2 A0) separates fields too. *)
Example Fields_no_break_space :
  strings.Fields ("sda" ++ String "194" (String "160" "12")) = ["sda"; "12"].
Proof. reflexivity. Qed.

Example Split_path :
  strings.Split "/sys/block/sda" "/" = [""; "sys"; "block"; "sda"].
Proof. reflexivity. Qed.

Example NewScanner_lines :
  bufio.NewScanner (io.mkReader ("a b" ++ CR ++ LF ++ LF ++ "c") None)
  = (["a b"; ""; "c"], None).
Proof. reflexivity. Qed.

Example NewScanner_final_line_feed :
  bufio.NewScanner (io.mkReader ("a b" ++ LF) None) = (["a b"], None).
Proof. reflexivity. Qed.

Example ReadLine_first :
  bufio.ReadLine ("0" ++ CR ++ LF ++ "x") = ("0", None) /\
  bufio.ReadLine ("0" ++ CR) = ("0" ++ CR, None) /\
  bufio.ReadLine "" = ("", Some io.EOF).
Proof. repeat split; reflexivity. Qed.

Example Trim_brackets : bytes.Trim "[mq-deadline]" "[]" = "mq-deadline".
Proof. reflexivity. Qed.

(** The pattern of the scheduler reader, as Go reads it: a class of the
    opening bracket, the lower-case letters and the hyphen, repeated,
    then a closing bracket; or [none]. *)
Example Compile_scheduler_pattern :
  regexp.Compile "[[a-z-]+]|none"
  = inl (regexp.Alt
           (regexp.Cat
              (regexp.Plus (regexp.Class [("[", "["); ("a", "z"); ("-", "-")]%char))
              (regexp.Char "]"))
           (regexp.Cat (regexp.Char "n")
              (regexp.Cat (regexp.Char "o") (regexp.Cat (regexp.Char "n") (regexp.Char "e"))))).
Proof. reflexivity. Qed.

Example Find_scheduler :
  map (regexp.Find (regexp.MustCompile "[[a-z-]+]|none"))
    ["noop [mq-deadline] kyber"; "none"; "[none] mq-deadline kyber"; "[BFQ]"]
  = [Some "[mq-deadline]"; Some "none"; Some "[none]"; None].
Proof. reflexivity. Qed.

(** ** Package unicode/utf8 *)

Module utf8.

Definition within (lo hi : N) (c : ascii) : bool :=
  (lo <=? byte c)%N && (byte c <=? hi)%N.

(** [utf8.ValidString]: whether [s] is a sequence of well-formed UTF-8
    encodings: one byte below 0x80; a first byte C2..DF and one
    continuation byte; a first byte E0..EF and two, F0..F4 and three,
    the second byte in the range its first byte allows (no overlong
    form, no surrogate, nothing above U+10FFFF). *)
Fixpoint ValidString (s : string) : bool :=
  match s with
  | EmptyString => true
  | String c s1 =>
    if (byte c <? 0x80)%N then ValidString s1
    else
      match s1 with
      | EmptyString => false
      | String c1 s2 =>
        if within 0xC2 0xDF c then within 0x80 0xBF c1 && ValidString s2
        else
          match s2 with
          | EmptyString => false
          | String c2 s3 =>
            if within 0xE0 0xEF c then
              (if (byte c =? 0xE0)%N then within 0xA0 0xBF c1
               else if (byte c =? 0xED)%N then within 0x80 0x9F c1
               else within 0x80 0xBF c1)
              && within 0x80 0xBF c2 && ValidString s3
            else
              match s3 with
              | EmptyString => false
              | String c3 s4 =>
                if within 0xF0 0xF4 c then
                  (if (byte c =? 0xF0)%N then within 0x90 0xBF c1
                   else if (byte c =? 0xF4)%N then within 0x80 0x8F c1
                   else within 0x80 0xBF c1)
                  && within 0x80 0xBF c2 && within 0x80 0xBF c3 && ValidString s4
                else false
              end
          end
      end
  end.

End utf8.

(** ** Package prometheus (client_golang)

    The descriptors and the constant metrics of client_golang 1.x, with
    the validation of names of its time (the legacy names of
    prometheus/common: letters, digits and the underscore).  An error of
    a descriptor is kept as the fact that there is one: its text cites one
    of the offending names, whichever Go's iteration over the constant
    labels meets first. *)

Module prometheus.

Inductive ValueType : Type :=
| CounterValue
| GaugeValue
| UntypedValue.

Record Desc : Type := mkDesc {
  fqName : string;
  help : string;
  variableLabels : list string;
  constLabels : gmap string string;
  err : bool
}.

Definition BuildFQName (namespace subsystem name : string) : string :=
  match name, namespace, subsystem with
  | EmptyString, _, _ => EmptyString
  | _, String _ _, String _ _ => namespace ++ "_" ++ subsystem ++ "_" ++ name
  | _, String _ _, EmptyString => namespace ++ "_" ++ name
  | _, EmptyString, String _ _ => subsystem ++ "_" ++ name
  | _, EmptyString, EmptyString => name
  end.

(** A byte of a name: a letter or the underscore, the colon in the name
    of a metric, a digit after the first byte. *)
Definition nameByte (colon first : bool) (c : ascii) : bool :=
  utf8.within 0x61 0x7A c || utf8.within 0x41 0x5A c || Ascii.eqb c "_" ||
  (colon && Ascii.eqb c ":") || (negb first && utf8.within 0x30 0x39 c).

Definition validName (colon : bool) (name : string) : bool :=
  match name with
  | EmptyString => false
  | String c rest =>
    nameByte colon true c && forallb (nameByte colon false) (list_ascii_of_string rest)
  end.

(** [model.IsValidMetricName] *)
Definition IsValidMetricName (name : string) : bool := validName true name.

(** [checkLabelName]: a valid name that does not begin with two
    underscores. *)
Definition checkLabelName (l : string) : bool :=
  validName false l && negb (String.prefix "__" l).

(** [NewDesc]: the descriptor holds an error when the name of the metric
    or the name of a label is not valid, when the value of a constant
    label is not valid UTF-8, and when two labels have the same name. *)
Definition NewDesc (fqName help : string) (variableLabels : list string)
    (constLabels : gmap string string) : Desc :=
  mkDesc fqName help variableLabels constLabels
    (negb (IsValidMetricName fqName) ||
     negb (forallb checkLabelName (map fst (map_to_list constLabels))) ||
     negb (forallb utf8.ValidString (map snd (map_to_list constLabels))) ||
     negb (forallb checkLabelName variableLabels) ||
     negb (bool_decide (NoDup (map fst (map_to_list constLabels) ++ variableLabels)%list))).

(** A sample of a constant metric. *)
Record Metric : Type := mkMetric {
  desc : Desc;
  valueType : ValueType;
  value : float;
  labelValues : list string
}.

(** [NewConstMetric]: [None] for an error, which is that of the
    descriptor, a number of label values that is not the number of the
    variable labels of the descriptor, or a label value that is not valid
    UTF-8. *)
Definition NewConstMetric (desc : Desc) (valueType : ValueType) (value : float)
    (labelValues : list string) : option Metric :=
  if err desc then None
  else if negb (length labelValues =? length (variableLabels desc))%nat then None
  else if negb (forallb utf8.ValidString labelValues) then None
  else Some (mkMetric desc valueType value labelValues).

(** [MustNewConstMetric] panics where [NewConstMetric] returns an error:
    [None] is the panic. *)
Definition MustNewConstMetric (desc : Desc) (valueType : ValueType) (value : float)
    (labelValues : list string) : option Metric :=
  NewConstMetric desc valueType value labelValues.

End prometheus.

(** ** The operating system

    What the collector asks of the host: [os.Open] of a file (the reader
    over its content), [filepath.Glob], and [ioutil.ReadFile]. *)

Module os.

Record FileSystem : Type := mkFileSystem {
  Open : string -> io.Reader + error;
  Glob : string -> list string + error;
  ReadFile : string -> string + error
}.

End os.

(** * The collector *)

Import regexp.

(** Modelled from the spec: the type [typedDesc], declared in
    collector.go, which is not among the sources.  A metric descriptor is
    its name and label schema ([desc]), its semantic kind and its
    unit-conversion factor, the fields the composite literals of
    [NewDiskstatsCollector] set. *)
Record typedDesc : Type := mkTypedDesc {
  desc : prometheus.Desc;
  valueType : prometheus.ValueType;
  factor : float
}.

(** Modelled from the spec: the method [mustNewConstMetric] of
    [typedDesc], declared in collector.go, which is not among the
    sources.  The sample value is the raw value times the factor of the
    descriptor (sector count times sector size, milliseconds times
    0.001).  A descriptor built without a factor has Go's zero value
    there and converts nothing.  The sample is made by
    [prometheus.MustNewConstMetric], whose name the method bears, and the
    call panics where that panics ([None]). *)
Definition mustNewConstMetric (d : typedDesc) (value : float) (labels : list string)
    : option prometheus.Metric :=
  prometheus.MustNewConstMetric (desc d) (valueType d)
    (if PrimFloat.eqb (factor d) 0 then value else PrimFloat.mul value (factor d))
    labels.

Set Warnings "-inexact-float".

Definition diskSectorSize : float := 512.

Definition ignoredDevicesPattern : string :=
  "^(ram|loop|fd|(h|s|v|xv)d[a-z]|nvme\d+n\d+p)\d+$".

Record diskstatsCollector : Type := mkDiskstatsCollector {
  c_ignoredDevicesPattern : option Regexp;
  completed : typedDesc;
  merged : typedDesc;
  bytes : typedDesc;
  times : typedDesc;
  ionow : typedDesc;
  iotime : typedDesc;
  iotimeweighted : typedDesc;
  storages : typedDesc
}.

(** [NewDiskstatsCollector]; its error result is always nil. *)
Definition NewDiskstatsCollector (labels : gmap string string)
    : diskstatsCollector * option error :=
  let diskLabelNames := ["device"; "type"] in
  ({| c_ignoredDevicesPattern := Some (MustCompile ignoredDevicesPattern);
      completed := {|
        desc := prometheus.NewDesc
          (prometheus.BuildFQName "node" "disk" "completed_total")
          "The total number of IO requests completed successfully of each type."
          diskLabelNames labels;
        valueType := prometheus.CounterValue; factor := 0 |};
      merged := {|
        desc := prometheus.NewDesc
          (prometheus.BuildFQName "node" "disk" "merged_total")
          "The total number of merged IO requests of each type."
          diskLabelNames labels;
        valueType := prometheus.CounterValue; factor := 0 |};
      bytes := {|
        desc := prometheus.NewDesc
          (prometheus.BuildFQName "node" "disk" "bytes_total")
          "The total number of bytes processed by IO requests of each type."
          diskLabelNames labels;
        valueType := prometheus.CounterValue; factor := diskSectorSize |};
      times := {|
        desc := prometheus.NewDesc
          (prometheus.BuildFQName "node" "disk" "time_seconds_total")
          "The total number of seconds spent on all requests of each type."
          diskLabelNames labels;
        valueType := prometheus.CounterValue; factor := 0.001 |};
      ionow := {|
        desc := prometheus.NewDesc
          (prometheus.BuildFQName "node" "disk" "io_now")
          "The number of I/Os currently in progress."
          ["device"] labels;
        valueType := prometheus.GaugeValue; factor := 0 |};
      iotime := {|
        desc := prometheus.NewDesc
          (prometheus.BuildFQName "node" "disk" "io_time_seconds_total")
          "Total seconds spent doing I/Os."
          ["device"] labels;
        valueType := prometheus.CounterValue; factor := 0.001 |};
      iotimeweighted := {|
        desc := prometheus.NewDesc
          (prometheus.BuildFQName "node" "disk" "io_time_weighted_seconds_total")
          "The weighted # of seconds spent doing I/Os."
          ["device"] labels;
        valueType := prometheus.CounterValue; factor := 0.001 |};
      storages := {|
        desc := prometheus.NewDesc
          (prometheus.BuildFQName "node" "system" "storage_info")
          "Labeled information about storage devices present in the system."
          ["device"; "rotational"; "scheduler"] labels;
        valueType := prometheus.GaugeValue; factor := 0 |} |},
   None).

(** [ignore != nil && ignore.MatchString(device)] *)
Definition ignored (ignore : option Regexp) (device : string) : bool :=
  match ignore with
  | Some re => MatchString re device
  | None => false
  end.

(** storageDeviceProperties defines storage devices properties observed
    through /sys/block/* interface. *)
Record storageDeviceProperties : Type := mkStorageDeviceProperties {
  device : string;
  rotational : string;
  scheduler : string
}.

Section Collector.

(** [strconv.ParseFloat(s, 64)] and [filepath.Clean], of Go's library. *)
Variable ParseFloat : string -> float * option error.
Variable Clean : string -> string.

(** The order in which a [range] over a map visits its entries: each
    entry once, in an order Go does not fix. *)
Variable rangeMap : gmap string (list float) -> list (string * list float).

(** [stat[i]] and [values[i]]; every use is within bounds. *)
Definition at_ (stat : list float) (i : nat) : float := nth i stat 0%float.

(** The counters of one line: [make([]float64, len(values)-3)] and the
    loop that fills it. *)
Definition parseStat (values : list string) : list float :=
  foldl
    (fun stat i =>
       match ParseFloat (nth (i + 3) values EmptyString) with
       | (_, Some _) => stat
       | (value, None) => <[i := value]> stat
       end)
    (replicate (length values - 3) 0%float)
    (seq 0 (length values - 3)).

(** The loop [for scanner.Scan()] over the lines the scanner yields, each
    in turn the value of [scanner.Text()], with the map filled so far;
    [scanErr] is what [scanner.Err()] returns after the last line. *)
Fixpoint scanLoop (ignore : option Regexp) (texts : list string) (scanErr : option error)
    (stats : gmap string (list float)) : option (gmap string (list float)) * option error :=
  match texts with
  | [] => (Some stats, scanErr)
  | text :: rest =>
    let values := strings.Fields text in
    if negb (length values =? 14)%nat && negb (length values =? 18)%nat &&
       negb (length values =? 20)%nat
    then (None, Some ("invalid /proc/diskstats file, too few columns in line: " ++ text))
    else
      let device := nth 2 values EmptyString in
      if ignored ignore device then scanLoop ignore rest scanErr stats
      else scanLoop ignore rest scanErr (<[device := parseStat values]> stats)
  end.

(** parseDiskstat reads stats file and returns stats structs. *)
Definition parseDiskstats (r : io.Reader) (ignore : option Regexp)
    : option (gmap string (list float)) * option error :=
  let '(texts, scanErr) := bufio.NewScanner r in
  scanLoop ignore texts scanErr ∅.

(** getDiskstats opens stats file and executes stats parser. *)
Definition getDiskstats (fs : os.FileSystem) (ignore : option Regexp)
    : option (gmap string (list float)) * option error :=
  match os.Open fs "/proc/diskstats" with
  | inr err => (None, Some err)
  | inl file => parseDiskstats file ignore
  end.

(** getDeviceRotational returns device's 'rotational' property. *)
Definition getDeviceRotational (fs : os.FileSystem) (devpath : string)
    : string * option error :=
  let rotationalFile := devpath ++ "/queue/rotational" in
  match os.ReadFile fs (Clean rotationalFile) with
  | inr err => (EmptyString, Some err)
  | inl content =>
    match bufio.ReadLine content with
    | (_, Some err) => (EmptyString, Some err)
    | (line, None) =>
      if String.eqb line "0" || String.eqb line "1" then (line, None)
      else (EmptyString, Some ("unknown rotational " ++ line))
    end
  end.

(** getDeviceScheduler returns name of the IO scheduler used by device. *)
Definition getDeviceScheduler (fs : os.FileSystem) (devpath : string)
    : string * option error :=
  match Compile "[[a-z-]+]|none" with
  | inr err => (EmptyString, Some err)
  | inl re =>
    let schedulerFile := devpath ++ "/queue/scheduler" in
    match os.ReadFile fs (Clean schedulerFile) with
    | inr err => (EmptyString, Some err)
    | inl content =>
      match bufio.ReadLine content with
      | (_, Some err) => (EmptyString, Some err)
      | (line, None) =>
        match Find re line with
        | Some sched => (bytes.Trim sched "[]", None)
        | None => (EmptyString, Some ("unknown scheduler: " ++ line))
        end
      end
    end
  end.

(** The loop of [getStorageProperties] over the directories of the glob. *)
Fixpoint storagesLoop (fs : os.FileSystem) (ignore : option Regexp) (dirs : list string)
    (storages : list storageDeviceProperties) : list storageDeviceProperties :=
  match dirs with
  | [] => storages
  | devpath :: rest =>
    let parts := strings.Split devpath "/" in
    let device := List.last parts EmptyString in
    if ignored ignore device then storagesLoop fs ignore rest storages
    else
      match getDeviceRotational fs devpath with
      | (_, Some _) => storagesLoop fs ignore rest storages
      | (rotational, None) =>
        match getDeviceScheduler fs devpath with
        | (_, Some _) => storagesLoop fs ignore rest storages
        | (scheduler, None) =>
          storagesLoop fs ignore rest
            (storages ++ [{| device := device; scheduler := scheduler;
                             rotational := rotational |}])
        end
      end
  end.

(** getStorageProperties reads storages properties. *)
Definition getStorageProperties (fs : os.FileSystem) (path : string) (ignore : option Regexp)
    : list storageDeviceProperties * option error :=
  match os.Glob fs path with
  | inr err => ([], Some err)
  | inl dirs => (storagesLoop fs ignore dirs [], None)
  end.

(** The calls of [mustNewConstMetric] of one round of the loop of
    [Update] over [stats], in order; the result of each is sent on the
    channel. *)
Definition sendStat (c : diskstatsCollector) (entry : string * list float)
    : list (option prometheus.Metric) :=
  let '(dev, stat) := entry in
  ((if (11 <=? length stat)%nat then
     [ mustNewConstMetric (completed c) (at_ stat 0) [dev; "reads"];
       mustNewConstMetric (merged c) (at_ stat 1) [dev; "reads"];
       mustNewConstMetric (bytes c) (at_ stat 2) [dev; "reads"];
       mustNewConstMetric (times c) (at_ stat 3) [dev; "reads"];
       mustNewConstMetric (completed c) (at_ stat 4) [dev; "writes"];
       mustNewConstMetric (merged c) (at_ stat 5) [dev; "writes"];
       mustNewConstMetric (bytes c) (at_ stat 6) [dev; "writes"];
       mustNewConstMetric (times c) (at_ stat 7) [dev; "writes"];
       mustNewConstMetric (ionow c) (at_ stat 8) [dev];
       mustNewConstMetric (iotime c) (at_ stat 9) [dev];
       mustNewConstMetric (iotimeweighted c) (at_ stat 10) [dev] ]
   else []) ++
  (if (15 <=? length stat)%nat then
     [ mustNewConstMetric (completed c) (at_ stat 11) [dev; "discards"];
       mustNewConstMetric (merged c) (at_ stat 12) [dev; "discards"];
       mustNewConstMetric (bytes c) (at_ stat 13) [dev; "discards"];
       mustNewConstMetric (times c) (at_ stat 14) [dev; "discards"] ]
   else []) ++
  (if (17 <=? length stat)%nat then
     [ mustNewConstMetric (completed c) (at_ stat 15) [dev; "flush"];
       mustNewConstMetric (times c) (at_ stat 16) [dev; "flush"] ]
   else []))%list.

(** The call of [mustNewConstMetric] for a storage property. *)
Definition sendStorage (c : diskstatsCollector) (s : storageDeviceProperties)
    : option prometheus.Metric :=
  mustNewConstMetric (storages c) 1 [device s; rotational s; scheduler s].

(** How a call of [Update] ends: it returns its error, or a panic unwinds
    it. *)
Inductive outcome : Type :=
| Returned (err : option error)
| Panicked.

(** A sequence of calls whose results are sent on the channel one after
    the other: the samples sent before the first call that panics, and
    whether one did. *)
Fixpoint sendAll (calls : list (option prometheus.Metric))
    : list prometheus.Metric * bool :=
  match calls with
  | [] => ([], false)
  | None :: _ => ([], true)
  | Some m :: rest => let '(ch, panicked) := sendAll rest in (m :: ch, panicked)
  end.

(** The loop of [Update] over [stats], in the order of the range. *)
Definition sendStats (c : diskstatsCollector) (stats : gmap string (list float))
    : list prometheus.Metric * bool :=
  sendAll (flat_map (sendStat c) (rangeMap stats)).

(** The loop of [Update] over [storages]. *)
Definition sendStorages (c : diskstatsCollector) (storages : list storageDeviceProperties)
    : list prometheus.Metric * bool :=
  sendAll (map (sendStorage c) storages).

(** [Update]: the samples sent on [ch], in order, and how the call
    ends. *)
Definition Update (c : diskstatsCollector) (fs : os.FileSystem)
    : list prometheus.Metric * outcome :=
  match getDiskstats fs (c_ignoredDevicesPattern c) with
  | (_, Some err) => ([], Returned (Some ("get diskstats failed: " ++ err)))
  | (stats, None) =>
    match sendStats c (default ∅ stats) with
    | (ch, true) => (ch, Panicked)
    | (ch, false) =>
      match getStorageProperties fs "/sys/block/*" (c_ignoredDevicesPattern c) with
      | (_, Some err) => (ch, Returned None)
      | (storages, None) =>
        match sendStorages c storages with
        | (gauges, true) => ((ch ++ gauges)%list, Panicked)
        | (gauges, false) => ((ch ++ gauges)%list, Returned None)
        end
      end
    end
  end.

End Collector.

(** * Sample data

    A host for the examples: a kernel 4.4 [/proc/diskstats] with a disk,
    one of its partitions and a loop device, and [/sys/block] with three
    directories, one of them with an attribute the reader rejects. *)

Definition digitValue (c : ascii) : option float :=
  if Ascii.eqb c "0" then Some 0%float else if Ascii.eqb c "1" then Some 1%float
  else if Ascii.eqb c "2" then Some 2%float else if Ascii.eqb c "3" then Some 3%float
  else if Ascii.eqb c "4" then Some 4%float else if Ascii.eqb c "5" then Some 5%float
  else if Ascii.eqb c "6" then Some 6%float else if Ascii.eqb c "7" then Some 7%float
  else if Ascii.eqb c "8" then Some 8%float else if Ascii.eqb c "9" then Some 9%float
  else None.

Fixpoint decimalFrom (acc : float) (s : string) : option float :=
  match s with
  | EmptyString => Some acc
  | String c s' =>
    match digitValue c with
    | Some d => decimalFrom (acc * 10 + d)%float s'
    | None => None
    end
  end.

(** A stand-in for [strconv.ParseFloat] in the examples: it reads the
    unsigned decimal integers (exactly, below 2^53) and rejects the rest. *)
Definition decimalParseFloat (s : string) : float * option error :=
  match s with
  | EmptyString => (0%float, Some "strconv.ParseFloat: invalid syntax")
  | _ =>
    match decimalFrom 0 s with
    | Some v => (v, None)
    | None => (0%float, Some "strconv.ParseFloat: invalid syntax")
    end
  end.

(** The lines of [sda], of its first partition and of [loop0]. *)
Definition sda_line : string :=
  "   8       0 sda 9253 1728 609448 6038 18522 22413 1414704 37299 0 19216 43338".

Definition sda1_line : string :=
  "   8       1 sda1 131 0 8318 53 2 0 2 0 0 116 53".

Definition loop0_line : string :=
  "   7       0 loop0 46 0 698 10 0 0 0 0 0 24 10".

Definition sample_diskstats : string :=
  sda_line ++ LF ++ sda1_line ++ LF ++ loop0_line ++ LF.

(** A source of two lines, for the devices [sda] and [loop0]. *)
Definition two_devices : string := sda_line ++ LF ++ loop0_line ++ LF.

Definition sample_fs : os.FileSystem :=
  {| os.Open := fun name =>
       if String.eqb name "/proc/diskstats" then inl (io.mkReader sample_diskstats None)
       else inr ("open " ++ name ++ ": no such file or directory");
     os.Glob := fun pattern =>
       if String.eqb pattern "/sys/block/*"
       then inl ["/sys/block/loop0"; "/sys/block/sda"; "/sys/block/sdb"; "/sys/block/sr0"]
       else inl [];
     os.ReadFile := fun name =>
       if String.eqb name "/sys/block/sda/queue/rotational" then inl ("0" ++ LF)
       else if String.eqb name "/sys/block/sda/queue/scheduler"
       then inl ("noop [mq-deadline] kyber" ++ LF)
       else if String.eqb name "/sys/block/sdb/queue/rotational" then inl ("2" ++ LF)
       else if String.eqb name "/sys/block/sdb/queue/scheduler" then inl ("none" ++ LF)
       else if String.eqb name "/sys/block/sr0/queue/rotational" then inl ("1" ++ LF)
       else if String.eqb name "/sys/block/sr0/queue/scheduler" then inl ("none" ++ LF)
       else inr ("open " ++ name ++ ": no such file or directory") |}.

Definition sample_collector : diskstatsCollector := (NewDiskstatsCollector ∅).1.

(** 65536 bytes in one line: fourteen tokens and white space after them. *)
Fixpoint spaces (n : nat) : string :=
  match n with
  | O => EmptyString
  | S k => String " " (spaces k)
  end.

Definition long_line : string := sda_line ++ spaces (2 ^ 16).

(** A [/sys/block] with one disk whose scheduler file holds no opening
    bracket. *)
Definition unbracketed_fs : os.FileSystem :=
  {| os.Open := fun name => inr ("open " ++ name ++ ": no such file or directory");
     os.Glob := fun pattern => inl ["/sys/block/sda"];
     os.ReadFile := fun name =>
       if String.eqb name "/sys/block/sda/queue/rotational" then inl ("0" ++ LF)
       else if String.eqb name "/sys/block/sda/queue/scheduler"
       then inl ("mq-deadline] kyber" ++ LF)
       else inr ("open " ++ name ++ ": no such file or directory") |}.


(** * Properties *)

Open Scope list_scope.

(** ** Matching *)

(** What [run] does on [Plus (Class ranges)]: the longest run of
    characters of the class first, then the shorter ones. *)
Fixpoint plusClass (ranges : list (ascii * ascii)) (k : nat -> string -> option nat)
    (i : nat) (s : string) : option nat :=
  match s with
  | String c s' =>
    if inClass ranges c then orElse (plusClass ranges k (S i) s') (k (S i) s') else None
  | EmptyString => None
  end.

Lemma rounds_class (ranges : list (ascii * ascii)) (k : nat -> string -> option nat)
    (n i : nat) (s : string) :
  String.length s < n ->
  rounds (run (Class ranges)) k n i s = plusClass ranges k i s.
Proof.
  revert i s. induction n as [|n IH]; intros i s Hn; [lia|].
  destruct s as [|c s]; cbn [rounds run plusClass]; [done|].
  destruct (inClass ranges c); [|done].
  rewrite (proj2 (Nat.leb_gt (S i) i)) by lia.
  rewrite IH by (simpl in Hn; lia). done.
Qed.

Lemma run_Plus_Class (ranges : list (ascii * ascii)) (i : nat) (s : string)
    (k : nat -> string -> option nat) :
  run (Plus (Class ranges)) i s k = plusClass ranges k i s.
Proof. change (run (Plus (Class ranges)) i s k)
    with (rounds (run (Class ranges)) k (S (String.length s)) i s).
  apply rounds_class. lia.
Qed.

(** A string of one or more characters of a class. *)
Fixpoint allIn (ranges : list (ascii * ascii)) (s : string) : bool :=
  match s with
  | EmptyString => true
  | String c s' => inClass ranges c && allIn ranges s'
  end.

Definition someIn (ranges : list (ascii * ascii)) (s : string) : bool :=
  match s with
  | EmptyString => false
  | String _ _ => allIn ranges s
  end.

(** Whether [s] begins with a character of the class. *)
Definition startsIn (ranges : list (ascii * ascii)) (s : string) : bool :=
  match s with
  | EmptyString => false
  | String c _ => inClass ranges c
  end.

Lemma plusClass_stop (ranges : list (ascii * ascii)) (k : nat -> string -> option nat)
    (i : nat) (s : string) :
  startsIn ranges s = false -> plusClass ranges k i s = None.
Proof. destruct s as [|c s]; simpl; [done|]. by intros ->. Qed.

(** The repetition takes the whole run when what follows accepts that. *)
Lemma plusClass_whole (ranges : list (ascii * ascii)) (k : nat -> string -> option nat)
    (i : nat) (d rest : string) (e : nat) :
  someIn ranges d = true -> startsIn ranges rest = false ->
  k (i + String.length d) rest = Some e ->
  plusClass ranges k i (d ++ rest)%string = Some e.
Proof.
  revert i. induction d as [|c d IH]; intros i Hd Hrest Hk; [done|].
  simpl in Hd. apply andb_true_iff in Hd as [Hc Hd]. simpl. rewrite Hc.
  destruct d as [|c' d'].
  - simpl in Hk |- *. rewrite plusClass_stop by done. simpl.
    by rewrite Nat.add_1_r in Hk.
  - rewrite IH; [done | done | done |].
    simpl in Hk |- *. by rewrite <- Nat.add_succ_r.
Qed.

Lemma orElse_None_r (x : option nat) : orElse x None = x.
Proof. by destruct x. Qed.

(** When what follows accepts no shorter split, the repetition takes the
    whole run and the result is that of what follows. *)
Lemma plusClass_exact (ranges : list (ascii * ascii)) (k : nat -> string -> option nat)
    (i : nat) (d rest : string) :
  someIn ranges d = true -> startsIn ranges rest = false ->
  (forall j q, someIn ranges q = true -> k j (q ++ rest)%string = None) ->
  plusClass ranges k i (d ++ rest)%string = k (i + String.length d) rest.
Proof.
  revert i. induction d as [|c d IH]; intros i Hd Hrest Hk; [done|].
  simpl in Hd. apply andb_true_iff in Hd as [Hc Hd].
  change (plusClass ranges k i (String c d ++ rest)%string)
    with (if inClass ranges c
          then orElse (plusClass ranges k (S i) (d ++ rest)%string)
                 (k (S i) (d ++ rest)%string)
          else None).
  rewrite Hc. destruct d as [|c' d'].
  - change ("" ++ rest)%string with rest. rewrite plusClass_stop by done.
    simpl. by rewrite Nat.add_1_r.
  - rewrite IH, Hk by done. rewrite orElse_None_r. f_equal. simpl. lia.
Qed.

(** What the repetition matched when it succeeds. *)
Lemma plusClass_matched (ranges : list (ascii * ascii)) (k : nat -> string -> option nat)
    (i : nat) (s : string) (e : nat) :
  plusClass ranges k i s = Some e ->
  exists d rest,
    s = (d ++ rest)%string /\ someIn ranges d = true /\
    k (i + String.length d) rest = Some e.
Proof.
  revert i. induction s as [|c s IH]; intros i; simpl; [done|].
  destruct (inClass ranges c) eqn:Hc; [|done].
  destruct (plusClass ranges k (S i) s) as [e'|] eqn:Hmore; simpl.
  - intros [= <-]. destruct (IH _ Hmore) as (d & rest & -> & Hd & Hk).
    exists (String c d), rest. split; [done|]. split.
    + simpl. rewrite Hc. by destruct d.
    + by replace (i + String.length (String c d)) with (S i + String.length d)
        by (simpl; lia).
  - intros Hk. exists (String c EmptyString), s. split; [done|]. split.
    + simpl. by rewrite Hc.
    + by replace (i + String.length (String c EmptyString)) with (S i) by (simpl; lia).
Qed.

(** [t] is what is left of [s] after some of its characters. *)
Definition restOf (s t : string) : Prop := exists p, s = (p ++ t)%string.

Lemma restOf_refl (s : string) : restOf s s.
Proof. by exists EmptyString. Qed.

Lemma restOf_tail (c : ascii) (s t : string) : restOf s t -> restOf (String c s) t.
Proof. intros [p ->]. by exists (String c p). Qed.

Lemma append_assoc (p q u : string) : (p ++ (q ++ u) = (p ++ q) ++ u)%string.
Proof.
  induction p as [|c p IH]; [reflexivity|].
  change (String c (p ++ (q ++ u)) = String c ((p ++ q) ++ u))%string. by rewrite IH.
Qed.

Lemma restOf_trans (s t u : string) : restOf s t -> restOf t u -> restOf s u.
Proof. intros [p ->] [q ->]. exists (p ++ q)%string. apply append_assoc. Qed.

(** A match hands to its continuation an end of the text it was given. *)
Lemma rounds_continues
    (f : nat -> string -> (nat -> string -> option nat) -> option nat)
    (k : nat -> string -> option nat) (n i : nat) (s : string) (e : nat) :
  (forall i s k e, f i s k = Some e -> exists j t, restOf s t /\ k j t = Some e) ->
  rounds f k n i s = Some e -> exists j t, restOf s t /\ k j t = Some e.
Proof.
  intros Hf. revert i s. induction n as [|n IH]; intros i s; simpl; [done|].
  intros Hrun. apply Hf in Hrun as (j & t & Hst & Hk).
  destruct (j <=? i)%nat; simpl in Hk; [by exists j, t|].
  destruct (rounds f k n j t) as [e'|] eqn:Hmore; simpl in Hk; [|by exists j, t].
  injection Hk as ->. apply IH in Hmore as (j' & t' & Htt & Hk).
  exists j', t'. split; [by eapply restOf_trans | done].
Qed.

Lemma run_continues (r : Regexp) (i : nat) (s : string) (k : nat -> string -> option nat)
    (e : nat) :
  run r i s k = Some e -> exists j t, restOf s t /\ k j t = Some e.
Proof.
  revert i s k e.
  induction r as [|c|ranges|a IHa b IHb|a IHa b IHb|a IHa| |]; intros i s k e; simpl.
  - intros Hk. exists i, s. split; [apply restOf_refl | done].
  - destruct s as [|c' s]; [done|]. destruct (Ascii.eqb c' c); [|done].
    intros Hk. exists (S i), s. split; [apply restOf_tail, restOf_refl | done].
  - destruct s as [|c' s]; [done|]. destruct (inClass ranges c'); [|done].
    intros Hk. exists (S i), s. split; [apply restOf_tail, restOf_refl | done].
  - intros Hrun. apply IHa in Hrun as (j & t & Hst & Hrun).
    apply IHb in Hrun as (j' & t' & Htt & Hk).
    exists j', t'. split; [by eapply restOf_trans | done].
  - destruct (run a i s k) as [e'|] eqn:Ha; simpl.
    + intros [= <-]. by apply IHa in Ha.
    + apply IHb.
  - intros Hrun.
    apply (rounds_continues (run a) k (S (String.length s)) i s e); [|exact Hrun].
    intros i' s' k' e'. apply IHa.
  - destruct (i =? 0)%nat; [|done].
    intros Hk. exists i, s. split; [apply restOf_refl | done].
  - destruct s as [|c' s]; [|done].
    intros Hk. exists i, EmptyString. split; [apply restOf_refl | done].
Qed.

(** A pattern that begins with [^] matches at the beginning only. *)
Lemma search_BeginText (r : Regexp) (i : nat) (s : string) :
  search (Cat BeginText r) (S i) s = None.
Proof. revert i. induction s as [|c s IH]; intros i; simpl; [done|]. apply IH. Qed.

Lemma MatchString_BeginText (r : Regexp) (s : string) :
  MatchString (Cat BeginText r) s
  = match run r 0 s (fun j _ => Some j) with Some _ => true | None => false end.
Proof.
  unfold MatchString. destruct s as [|c s]; simpl.
  - by destruct (run r 0 EmptyString _).
  - destruct (run r 0 (String c s) _); [done|]. by rewrite search_BeginText.
Qed.

(** ** The default exclusion pattern *)

Definition digitRanges : list (ascii * ascii) := [("0", "9")%char].

Definition lowerRanges : list (ascii * ascii) := [("a", "z")%char].

(** What follows [nvme] in the last alternative of the pattern. *)
Definition nvmeTail : Regexp :=
  Cat (Plus (Class digitRanges)) (Cat (Char "n") (Cat (Plus (Class digitRanges)) (Char "p"))).

(** The alternatives of the pattern, between [^] and the final [\d+$]. *)
Definition deviceClasses : Regexp :=
  Alt (Cat (Char "r") (Cat (Char "a") (Char "m")))
 (Alt (Cat (Char "l") (Cat (Char "o") (Cat (Char "o") (Char "p"))))
 (Alt (Cat (Char "f") (Char "d"))
 (Alt (Cat (Alt (Char "h") (Alt (Char "s") (Alt (Char "v") (Cat (Char "x") (Char "v")))))
           (Cat (Char "d") (Class lowerRanges)))
      (Cat (Char "n") (Cat (Char "v") (Cat (Char "m") (Cat (Char "e") nvmeTail))))))).

Lemma ignoredDevicesPattern_compiled :
  Compile ignoredDevicesPattern
  = inl (Cat BeginText (Cat deviceClasses (Cat (Plus (Class digitRanges)) EndText))).
Proof. vm_compute. reflexivity. Qed.

(** What follows the alternatives: digits up to the end of the name. *)
Definition atEnd (j : nat) (t : string) : option nat :=
  match t with
  | EmptyString => Some j
  | String _ _ => None
  end.

Definition numberToEnd (j : nat) (t : string) : option nat :=
  run (Plus (Class digitRanges)) j t atEnd.

Lemma MatchString_default (name : string) :
  MatchString (MustCompile ignoredDevicesPattern) name
  = match run deviceClasses 0 name numberToEnd with Some _ => true | None => false end.
Proof.
  unfold MustCompile. rewrite ignoredDevicesPattern_compiled. apply MatchString_BeginText.
Qed.

Lemma append_nil_r (s : string) : (s ++ "")%string = s.
Proof.
  induction s as [|c s IH]; [reflexivity|].
  change (String c (s ++ "")%string = String c s). by rewrite IH.
Qed.

Lemma append_cons (c : ascii) (s t : string) :
  (String c s ++ t)%string = String c (s ++ t)%string.
Proof. reflexivity. Qed.

Lemma append_nil_l (t : string) : ("" ++ t)%string = t.
Proof. reflexivity. Qed.

(** A number, and nothing after it, is what must follow the alternatives. *)
Lemma numberToEnd_number (j : nat) (d : string) :
  someIn digitRanges d = true -> numberToEnd j d = Some (j + String.length d).
Proof.
  intros Hd. unfold numberToEnd. rewrite run_Plus_Class.
  rewrite <- (append_nil_r d) at 1. by apply plusClass_whole.
Qed.

Lemma numberToEnd_matched (j : nat) (t : string) (e : nat) :
  numberToEnd j t = Some e -> someIn digitRanges t = true.
Proof.
  unfold numberToEnd. rewrite run_Plus_Class. intros Hrun.
  apply plusClass_matched in Hrun as (d & rest & -> & Hd & Hend).
  destruct rest; [|done]. by rewrite append_nil_r.
Qed.

(** Reads the characters of a name that are known and runs the matcher
    over them. *)
Ltac run_known :=
  rewrite ?append_cons, ?append_nil_l;
  cbn -[inClass append plusClass nvmeTail numberToEnd].

Lemma run_Cat_Plus_Class (ranges : list (ascii * ascii)) (b : Regexp) (i : nat) (s : string)
    (k : nat -> string -> option nat) :
  run (Cat (Plus (Class ranges)) b) i s k = plusClass ranges (fun j t => run b j t k) i s.
Proof.
  change (run (Cat (Plus (Class ranges)) b) i s k)
    with (run (Plus (Class ranges)) i s (fun j t => run b j t k)).
  apply run_Plus_Class.
Qed.

(** A digit is none of the letters that follow a number in the pattern. *)
Lemma digit_not_letter (c : ascii) :
  inClass digitRanges c = true -> Ascii.eqb c "n" = false /\ Ascii.eqb c "p" = false.
Proof. destruct c as [[] [] [] [] [] [] [] []]; vm_compute; intros; try done. Qed.

Lemma Char_after_number (c : ascii) (b : Regexp) (k : nat -> string -> option nat)
    (j : nat) (q rest : string) :
  c = "n"%char \/ c = "p"%char -> someIn digitRanges q = true ->
  run (Cat (Char c) b) j (q ++ rest)%string k = None.
Proof.
  intros Hc Hq. destruct q as [|c' q]; [done|].
  simpl in Hq. apply andb_true_iff in Hq as [Hc' _].
  apply digit_not_letter in Hc' as [Hn Hp].
  rewrite append_cons. cbn [run]. by destruct Hc as [-> | ->]; rewrite ?Hn, ?Hp.
Qed.

Lemma Char_p_after_number (k : nat -> string -> option nat) (j : nat) (q rest : string) :
  someIn digitRanges q = true -> run (Char "p") j (q ++ rest)%string k = None.
Proof.
  intros Hq. destruct q as [|c' q]; [done|].
  simpl in Hq. apply andb_true_iff in Hq as [Hc' _].
  apply digit_not_letter in Hc' as [_ Hp].
  rewrite append_cons. cbn [run]. by rewrite Hp.
Qed.

Lemma run_Cat_Char_same (c : ascii) (b : Regexp) (i : nat) (s : string)
    (k : nat -> string -> option nat) :
  run (Cat (Char c) b) i (String c s) k = run b (S i) s k.
Proof. cbn [run]. by rewrite Ascii.eqb_refl. Qed.

(** [nvmeTail] on the number of a controller, [n], the number of a
    namespace, [p] and the rest of a name. *)
Lemma nvmeTail_partition (i : nat) (d1 d2 rest : string) (k : nat -> string -> option nat) :
  someIn digitRanges d1 = true -> someIn digitRanges d2 = true ->
  run nvmeTail i (d1 ++ String "n" (d2 ++ String "p" rest))%string k
  = k (S (S (i + String.length d1) + String.length d2)) rest.
Proof.
  intros Hd1 Hd2. unfold nvmeTail.
  rewrite run_Cat_Plus_Class, plusClass_exact; [|done|done|].
  2:{ intros j q Hq. apply Char_after_number; auto. }
  cbv beta. rewrite run_Cat_Char_same.
  rewrite run_Cat_Plus_Class, plusClass_exact; [|done|done|].
  2:{ intros j q Hq. by apply Char_p_after_number. }
  cbn [run]. by rewrite Ascii.eqb_refl.
Qed.

(** [nvmeTail] on the name of a namespace: no [p] follows. *)
Lemma nvmeTail_namespace (i : nat) (d1 d2 : string) (k : nat -> string -> option nat) :
  someIn digitRanges d1 = true -> someIn digitRanges d2 = true ->
  run nvmeTail i (d1 ++ String "n" d2)%string k = None.
Proof.
  intros Hd1 Hd2. unfold nvmeTail.
  rewrite run_Cat_Plus_Class, plusClass_exact; [|done|done|].
  2:{ intros j q Hq. apply Char_after_number; auto. }
  cbv beta. rewrite run_Cat_Char_same.
  rewrite <- (append_nil_r d2).
  rewrite run_Cat_Plus_Class, plusClass_exact; [done|done|done|].
  intros j q Hq. by apply Char_p_after_number.
Qed.

(** Whether a name ends with a digit. *)
Fixpoint endsWithDigit (name : string) : bool :=
  match name with
  | EmptyString => false
  | String c EmptyString => inClass digitRanges c
  | String _ rest => endsWithDigit rest
  end.

Lemma someIn_endsWithDigit (p t : string) :
  someIn digitRanges t = true -> endsWithDigit (p ++ t)%string = true.
Proof.
  intros Ht.
  assert (endsWithDigit t = true) as Hend.
  { destruct t as [|c t]; [done|]. simpl in Ht. revert c Ht.
    induction t as [|c' t IH]; intros c Ht; simpl in *.
    - by rewrite andb_true_r in Ht.
    - apply andb_true_iff in Ht as [_ Ht]. by apply IH. }
  induction p as [|c p IH]; [done|].
  rewrite append_cons. destruct (p ++ t)%string as [|c' r]; [done|]. exact IH.
Qed.

(** The pattern matches nothing that does not end with a digit. *)
Lemma MatchString_default_endsWithDigit (name : string) :
  MatchString (MustCompile ignoredDevicesPattern) name = true -> endsWithDigit name = true.
Proof.
  rewrite MatchString_default.
  destruct (run deviceClasses 0 name numberToEnd) as [e|] eqn:Hrun; [|done].
  intros _. apply run_continues in Hrun as (j & t & [p ->] & Hend).
  apply numberToEnd_matched in Hend. by apply someIn_endsWithDigit.
Qed.

(** Whether the default pattern excludes a device. *)
Definition excluded (name : string) : bool :=
  ignored (Some (MustCompile ignoredDevicesPattern)) name.

Lemma lower_not_digit (c : ascii) :
  inClass lowerRanges c = true -> inClass digitRanges c = false.
Proof. destruct c as [[] [] [] [] [] [] [] []]; vm_compute; intros; try done. Qed.

Lemma excluded_run (name : string) :
  excluded name
  = match run deviceClasses 0 name numberToEnd with Some _ => true | None => false end.
Proof. apply MatchString_default. Qed.

Lemma excluded_class_number (d : string) :
  someIn digitRanges d = true ->
  excluded ("ram" ++ d) = true /\ excluded ("loop" ++ d) = true /\
  excluded ("fd" ++ d) = true.
Proof.
  intros Hd. rewrite !excluded_run.
  repeat split; run_known; by rewrite (numberToEnd_number _ d Hd).
Qed.

Lemma excluded_disk_partition (c : ascii) (d : string) :
  inClass lowerRanges c = true -> someIn digitRanges d = true ->
  excluded ("hd" ++ String c d) = true /\ excluded ("sd" ++ String c d) = true /\
  excluded ("vd" ++ String c d) = true /\ excluded ("xvd" ++ String c d) = true.
Proof.
  intros Hc Hd. rewrite !excluded_run.
  repeat split; run_known; fold lowerRanges;
    by rewrite Hc, (numberToEnd_number _ d Hd).
Qed.

Lemma excluded_nvme_partition (d1 d2 d3 : string) :
  someIn digitRanges d1 = true -> someIn digitRanges d2 = true ->
  someIn digitRanges d3 = true ->
  excluded ("nvme" ++ d1 ++ "n" ++ d2 ++ "p" ++ d3) = true.
Proof.
  intros Hd1 Hd2 Hd3. rewrite excluded_run. run_known.
  rewrite nvmeTail_partition by done.
  by rewrite (numberToEnd_number _ d3 Hd3).
Qed.

Lemma retained_no_digit (name : string) :
  endsWithDigit name = false -> excluded name = false.
Proof.
  intros Hend. destruct (excluded name) eqn:Hex; [|done].
  apply MatchString_default_endsWithDigit in Hex. congruence.
Qed.

Lemma retained_nvme_namespace (d1 d2 : string) :
  someIn digitRanges d1 = true -> someIn digitRanges d2 = true ->
  excluded ("nvme" ++ d1 ++ "n" ++ d2) = false.
Proof.
  intros Hd1 Hd2. rewrite excluded_run. run_known.
  by rewrite nvmeTail_namespace.
Qed.

Lemma numberToEnd_no_digit (j : nat) (c : ascii) (rest : string) :
  inClass digitRanges c = false -> numberToEnd j (String c rest) = None.
Proof.
  intros Hc. unfold numberToEnd. rewrite run_Plus_Class. cbn [plusClass]. by rewrite Hc.
Qed.

(** A second letter after the class keeps the name, whatever follows. *)
Lemma retained_second_letter (c1 c2 : ascii) (rest : string) :
  inClass lowerRanges c1 = true -> inClass lowerRanges c2 = true ->
  excluded ("hd" ++ String c1 (String c2 rest)) = false /\
  excluded ("sd" ++ String c1 (String c2 rest)) = false /\
  excluded ("vd" ++ String c1 (String c2 rest)) = false /\
  excluded ("xvd" ++ String c1 (String c2 rest)) = false.
Proof.
  intros Hc1 Hc2. apply lower_not_digit in Hc2. rewrite !excluded_run.
  repeat split; run_known; fold lowerRanges;
    by rewrite Hc1, (numberToEnd_no_digit _ c2 rest Hc2).
Qed.

(** ** The scanner and the shape of lines *)

(** The width of a line, its device, and whether the width is one of the
    three the parser accepts. *)
Definition width (text : string) : nat := length (strings.Fields text).

Definition deviceOf (text : string) : string := nth 2 (strings.Fields text) EmptyString.

Definition widthOK (text : string) : bool :=
  (width text =? 14)%nat || (width text =? 18)%nat || (width text =? 20)%nat.

Lemma widthOK_test (text : string) :
  negb (length (strings.Fields text) =? 14)%nat &&
  negb (length (strings.Fields text) =? 18)%nat &&
  negb (length (strings.Fields text) =? 20)%nat = negb (widthOK text).
Proof.
  unfold widthOK, width.
  by destruct (_ =? 14)%nat, (_ =? 18)%nat, (_ =? 20)%nat.
Qed.

Lemma widths_dec (texts : list string) :
  Forall (fun t => widthOK t = true) texts \/ Exists (fun t => widthOK t = false) texts.
Proof.
  induction texts as [|t ts [IH|IH]]; [by left | |by right; right].
  destruct (widthOK t) eqn:Hw; [left | right; left]; auto.
Qed.

(** The scanner over lines none of which is too long yields every line,
    and reports the reader's error. *)
Lemma scanFrom_short (ls : list string) (rerr : option error) :
  Forall (fun l => bufio.tooLong l = false) ls ->
  bufio.scanFrom ls rerr = (map bufio.dropCR ls, rerr).
Proof.
  induction 1 as [|l ls Hl _ IH]; simpl; [done|]. by rewrite Hl, IH.
Qed.

Lemma scanFrom_long (ls : list string) (rerr : option error) :
  Exists (fun l => bufio.tooLong l = true) ls ->
  exists before, bufio.scanFrom ls rerr = (before, Some bufio.ErrTooLong).
Proof.
  induction ls as [|l ls IH]; intros Hex; [by inversion Hex|]. simpl.
  destruct (bufio.tooLong l) eqn:Hl; [by eexists|].
  destruct IH as [before ->]; [inversion Hex; [congruence | done]|]. by eexists.
Qed.

Lemma lengths_dec (ls : list string) :
  Forall (fun l => bufio.tooLong l = false) ls \/ Exists (fun l => bufio.tooLong l = true) ls.
Proof.
  induction ls as [|l ls [IH|IH]]; [by left | |by right; right].
  destruct (bufio.tooLong l) eqn:Hl; [right; left | left]; auto.
Qed.

Lemma widths_check (texts : list string) :
  forallb widthOK texts = true ->
  Forall (fun t => width t = 14 \/ width t = 18 \/ width t = 20) texts.
Proof.
  intros Hall. apply Forall_forall. intros t Ht.
  rewrite forallb_forall in Hall. apply list_elem_of_In, Hall in Ht.
  unfold widthOK in Ht. rewrite !orb_true_iff, !Nat.eqb_eq in Ht. tauto.
Qed.

(** The lines of the input, without their terminators. *)
Definition lines (r : io.Reader) : list string :=
  map bufio.dropCR (bufio.rawLines (io.rd_data r)).

Definition noLongLine (r : io.Reader) : Prop :=
  Forall (fun l => bufio.tooLong l = false) (bufio.rawLines (io.rd_data r)).

(** ** The parser *)

Section ParserFacts.

Variable ParseFloat : string -> float * option error.

(** The value a token leaves in the vector: zero when it does not parse. *)
Definition tokenValue (tok : string) : float :=
  match ParseFloat tok with
  | (_, Some _) => 0%float
  | (value, None) => value
  end.

Lemma fill_lookup (values : list string) (m a : nat) (stat : list float) (i : nat) :
  a + m <= length stat ->
  foldl
    (fun stat i =>
       match ParseFloat (nth (i + 3) values EmptyString) with
       | (_, Some _) => stat
       | (value, None) => <[i := value]> stat
       end) stat (seq a m) !! i
  = if decide (a <= i < a + m)
    then match ParseFloat (nth (i + 3) values EmptyString) with
         | (_, Some _) => stat !! i
         | (value, None) => Some value
         end
    else stat !! i.
Proof.
  revert a stat. induction m as [|m IH]; intros a stat Hlen; simpl.
  - case_decide; [lia | done].
  - destruct (ParseFloat (nth (a + 3) values EmptyString)) as [v [e|]] eqn:Ha.
    + rewrite IH by lia.
      destruct (decide (i = a)) as [->|Hne].
      * rewrite Ha. repeat case_decide; try done; lia.
      * repeat case_decide; try done; lia.
    + rewrite IH by (rewrite length_insert; lia).
      destruct (decide (i = a)) as [->|Hne].
      * rewrite Ha, list_lookup_insert_eq by lia.
        repeat case_decide; try done; lia.
      * rewrite list_lookup_insert_ne by done.
        repeat case_decide; try done; lia.
Qed.

Lemma fill_length (values : list string) (l : list nat) (stat : list float) :
  length (foldl
    (fun stat i =>
       match ParseFloat (nth (i + 3) values EmptyString) with
       | (_, Some _) => stat
       | (value, None) => <[i := value]> stat
       end) stat l) = length stat.
Proof.
  revert stat. induction l as [|a l IH]; intros stat; simpl; [done|].
  rewrite IH. destruct (ParseFloat _) as [v [e|]]; [done|]. apply length_insert.
Qed.

Lemma parseStat_length (values : list string) :
  length (parseStat ParseFloat values) = length values - 3.
Proof. unfold parseStat. rewrite fill_length. apply length_replicate. Qed.

Lemma parseStat_lookup (values : list string) (i : nat) :
  i < length values - 3 ->
  parseStat ParseFloat values !! i = Some (tokenValue (nth (i + 3) values EmptyString)).
Proof.
  intros Hi. unfold parseStat.
  rewrite fill_lookup by (rewrite length_replicate; lia).
  rewrite decide_True by lia. unfold tokenValue.
  destruct (ParseFloat _) as [v [e|]]; [|done].
  by apply lookup_replicate_2.
Qed.

(** The vector of the last line of [texts] that names [dev], when [dev]
    is not ignored. *)
Fixpoint lastStat (ignore : option Regexp) (texts : list string) (dev : string)
    : option (list float) :=
  match texts with
  | [] => None
  | text :: rest =>
    match lastStat ignore rest dev with
    | Some stat => Some stat
    | None =>
      if decide (deviceOf text = dev) then
        if ignored ignore dev then None
        else Some (parseStat ParseFloat (strings.Fields text))
      else None
    end
  end.

Lemma scanLoop_ok (ignore : option Regexp) (texts : list string) (scanErr : option error)
    (stats : gmap string (list float)) :
  Forall (fun t => widthOK t = true) texts ->
  exists stats',
    scanLoop ParseFloat ignore texts scanErr stats = (Some stats', scanErr) /\
    forall dev, stats' !! dev =
      match lastStat ignore texts dev with
      | Some stat => Some stat
      | None => stats !! dev
      end.
Proof.
  intros Hall. revert stats.
  induction Hall as [|text rest Hw _ IH]; intros stats; simpl.
  - by exists stats.
  - rewrite widthOK_test, Hw. simpl. fold (deviceOf text).
    destruct (ignored ignore (deviceOf text)) eqn:Hign.
    + destruct (IH stats) as (stats' & -> & Hl). exists stats'. split; [done|].
      intros dev. rewrite Hl. destruct (lastStat ignore rest dev); [done|].
      case_decide; [subst dev; by rewrite Hign | done].
    + destruct (IH (<[deviceOf text := parseStat ParseFloat (strings.Fields text)]> stats))
        as (stats' & -> & Hl).
      exists stats'. split; [done|].
      intros dev. rewrite Hl. destruct (lastStat ignore rest dev); [done|].
      case_decide as Hd.
      * subst dev. by rewrite Hign, lookup_insert_eq.
      * by rewrite lookup_insert_ne.
Qed.

Lemma scanLoop_bad (ignore : option Regexp) (texts : list string) (scanErr : option error)
    (stats : gmap string (list float)) :
  Exists (fun t => widthOK t = false) texts ->
  exists text,
    text ∈ texts /\ widthOK text = false /\
    scanLoop ParseFloat ignore texts scanErr stats =
      (None, Some ("invalid /proc/diskstats file, too few columns in line: " ++ text)%string).
Proof.
  intros Hex. revert stats.
  induction texts as [|text rest IH]; intros stats; [by inversion Hex|].
  simpl. rewrite widthOK_test.
  destruct (widthOK text) eqn:Hw; simpl.
  - assert (Exists (fun t => widthOK t = false) rest) as Hrest
      by (inversion Hex; [congruence | done]).
    fold (deviceOf text).
    destruct (ignored ignore (deviceOf text)).
    + destruct (IH Hrest stats) as (t & Hin & Ht & ->).
      exists t. by rewrite elem_of_cons; auto.
    + destruct (IH Hrest (<[deviceOf text := parseStat ParseFloat (strings.Fields text)]> stats))
        as (t & Hin & Ht & ->).
      exists t. by rewrite elem_of_cons; auto.
  - exists text. rewrite elem_of_cons. auto.
Qed.

(** What [scanLoop] returns as its error is set when the scanner's is. *)
Lemma scanLoop_err (ignore : option Regexp) (texts : list string) (e : error)
    (stats : gmap string (list float)) :
  (scanLoop ParseFloat ignore texts (Some e) stats).2 <> None.
Proof.
  destruct (widths_dec texts) as [Hok|Hbad].
  - destruct (scanLoop_ok ignore texts (Some e) stats Hok) as (stats' & -> & _). done.
  - destruct (scanLoop_bad ignore texts (Some e) stats Hbad) as (t & _ & _ & ->). done.
Qed.

(** When [parseDiskstats] returns no error. *)
Lemma parseDiskstats_nil_iff (r : io.Reader) (ignore : option Regexp) :
  (parseDiskstats ParseFloat r ignore).2 = None <->
  io.rd_err r = None /\ noLongLine r /\ Forall (fun t => widthOK t = true) (lines r).
Proof.
  unfold parseDiskstats, bufio.NewScanner, noLongLine, lines.
  destruct (lengths_dec (bufio.rawLines (io.rd_data r))) as [Hshort|Hlong].
  - rewrite scanFrom_short by done.
    destruct (widths_dec (map bufio.dropCR (bufio.rawLines (io.rd_data r)))) as [Hok|Hbad].
    + destruct (scanLoop_ok ignore _ (io.rd_err r) ∅ Hok) as (stats' & -> & _).
      simpl. tauto.
    + destruct (scanLoop_bad ignore _ (io.rd_err r) ∅ Hbad) as (t & Hin & Ht & ->).
      simpl. split; [done|]. intros (_ & _ & Hok).
      rewrite Forall_forall in Hok. specialize (Hok _ Hin). congruence.
  - destruct (scanFrom_long _ (io.rd_err r) Hlong) as [before ->].
    split.
    + intros H. by apply scanLoop_err in H.
    + intros (_ & Hshort & _). exfalso.
      apply Exists_exists in Hlong as (l & Hin & Hl).
      rewrite Forall_forall in Hshort. specialize (Hshort _ Hin). congruence.
Qed.

Lemma lastStat_Some (ignore : option Regexp) (texts : list string) (dev : string)
    (stat : list float) :
  lastStat ignore texts dev = Some stat ->
  exists text,
    text ∈ texts /\ deviceOf text = dev /\ ignored ignore dev = false /\
    stat = parseStat ParseFloat (strings.Fields text).
Proof.
  induction texts as [|text rest IH]; simpl; [done|].
  destruct (lastStat ignore rest dev) as [stat'|].
  - intros [= <-]. destruct IH as (t & Hin & Ht); [done|].
    exists t. by rewrite elem_of_cons; auto.
  - case_decide as Hd; [|done]. destruct (ignored ignore dev) eqn:Hign; [done|].
    intros [= <-]. exists text. rewrite elem_of_cons. auto.
Qed.

Lemma lastStat_retained (ignore : option Regexp) (texts : list string) (text : string) :
  text ∈ texts -> ignored ignore (deviceOf text) = false ->
  is_Some (lastStat ignore texts (deviceOf text)).
Proof.
  induction texts as [|t rest IH]; intros Hin Hign; [by apply elem_of_nil in Hin|].
  simpl. destruct (lastStat ignore rest (deviceOf text)) eqn:Hrest; [by eexists|].
  apply elem_of_cons in Hin as [->|Hin].
  - rewrite decide_True, Hign by done. by eexists.
  - destruct (IH Hin Hign) as [? ?]. congruence.
Qed.

Lemma lastStat_last (ignore : option Regexp) (before after : list string) (text : string) :
  ignored ignore (deviceOf text) = false ->
  Forall (fun t => deviceOf t <> deviceOf text) after ->
  lastStat ignore (before ++ text :: after) (deviceOf text)
  = Some (parseStat ParseFloat (strings.Fields text)).
Proof.
  intros Hign Hafter.
  assert (lastStat ignore after (deviceOf text) = None) as Hnone.
  { induction Hafter as [|t ts Ht _ IH]; simpl; [done|].
    rewrite IH. by rewrite decide_False. }
  induction before as [|b before IH]; simpl.
  - by rewrite Hnone, decide_True, Hign.
  - by rewrite IH.
Qed.

End ParserFacts.

(** ** The sysfs property reader *)

Lemma take_string_short (n : nat) (s : string) :
  String.length (bufio.take_string n s) <> n -> bufio.take_string n s = s.
Proof.
  revert s. induction n as [|n IH]; intros [|c s]; simpl; try done.
  intros Hlen. f_equal. apply IH. congruence.
Qed.

Lemma beforeLF_take_string (n : nat) (s line : string) :
  bufio.beforeLF (bufio.take_string n s) = Some line -> bufio.beforeLF s = Some line.
Proof.
  revert s line. induction n as [|n IH]; intros [|c s] line; simpl; try done.
  destruct (Ascii.eqb c "010"); [done|].
  destruct (bufio.beforeLF (bufio.take_string n s)) as [l|] eqn:Hl; [|done].
  by rewrite (IH _ _ Hl).
Qed.

Lemma dropCR_length (s : string) :
  String.length s <= S (String.length (bufio.dropCR s)).
Proof.
  induction s as [|c s IH]; simpl; [lia|].
  destruct s as [|c' s']; [destruct (Ascii.eqb c "013"); simpl; lia|].
  simpl in *. lia.
Qed.

(** The first line of an attribute file: what stands before its first
    line feed, without a carriage return before the line feed, or the
    whole content when it has no line feed. *)
Definition firstLine (content : string) : string :=
  match bufio.beforeLF content with
  | Some line => bufio.dropCR line
  | None => content
  end.

(** Short of the buffer's size, [ReadLine] returns the first line. *)
Lemma ReadLine_firstLine (content line : string) :
  bufio.ReadLine content = (line, None) ->
  S (String.length line) < bufio.defaultBufSize ->
  firstLine content = line.
Proof.
  unfold bufio.ReadLine, firstLine.
  destruct content as [|c content]; [done|].
  generalize (String c content). clear c content. intros content.
  generalize bufio.defaultBufSize. intros n.
  destruct (bufio.beforeLF (bufio.take_string n content)) as [l|] eqn:Hl.
  - intros [= <-] _. by rewrite (beforeLF_take_string _ _ _ Hl).
  - destruct (Nat.eqb_spec (String.length (bufio.take_string n content)) n) as [Hn|Hn].
    + intros [= <-] Hlen.
      pose proof (dropCR_length (bufio.take_string n content)). lia.
    + intros [= <-] _. rewrite take_string_short in Hl |- * by done. by rewrite Hl.
Qed.

Lemma take_string_all (n : nat) (s : string) :
  String.length s <= n -> bufio.take_string n s = s.
Proof.
  revert s. induction n as [|n IH]; intros [|c s]; simpl; try done; [lia|].
  intros Hlen. f_equal. apply IH. lia.
Qed.

Lemma beforeLF_take_string_long (n : nat) (s line : string) :
  bufio.beforeLF s = Some line -> String.length line < n ->
  bufio.beforeLF (bufio.take_string n s) = Some line.
Proof.
  revert s line. induction n as [|n IH]; intros [|c s] line; simpl; try done; [lia|].
  destruct (Ascii.eqb c "010"); [done|].
  destruct (bufio.beforeLF s) as [l|] eqn:Hl; [|done].
  intros [= <-] Hlen. simpl in Hlen. by rewrite (IH s l) by (done || lia).
Qed.

(** A first line that is not empty and short of the buffer's size is
    what [ReadLine] returns. *)
Lemma firstLine_ReadLine (content line : string) :
  firstLine content = line -> line <> EmptyString ->
  S (S (String.length line)) < bufio.defaultBufSize ->
  bufio.ReadLine content = (line, None).
Proof.
  unfold bufio.ReadLine, firstLine.
  destruct content as [|c content]; [by intros <-|].
  generalize (String c content). clear c content. intros content.
  generalize bufio.defaultBufSize. intros n Hline _ Hlen.
  destruct (bufio.beforeLF content) as [l|] eqn:Hl.
  - rewrite (beforeLF_take_string_long n content l Hl).
    + by rewrite Hline.
    + pose proof (dropCR_length l). rewrite Hline in *. lia.
  - subst line. rewrite take_string_all by lia. rewrite Hl.
    destruct (Nat.eqb_spec (String.length content) n); [lia | done].
Qed.

Section ReaderFacts.

Variable Clean : string -> string.

(** The device a directory stands for: the last element of its path. *)
Definition deviceName (devpath : string) : string :=
  List.last (strings.Split devpath "/") EmptyString.

(** What the loop of [getStorageProperties] appends for one directory. *)
Definition propertiesOf (fs : os.FileSystem) (ignore : option Regexp) (devpath : string)
    : option storageDeviceProperties :=
  if ignored ignore (deviceName devpath) then None
  else
    match getDeviceRotational Clean fs devpath with
    | (_, Some _) => None
    | (rotational, None) =>
      match getDeviceScheduler Clean fs devpath with
      | (_, Some _) => None
      | (scheduler, None) =>
        Some {| device := deviceName devpath; scheduler := scheduler;
                rotational := rotational |}
      end
    end.

Lemma storagesLoop_omap (fs : os.FileSystem) (ignore : option Regexp) (dirs : list string)
    (storages : list storageDeviceProperties) :
  storagesLoop Clean fs ignore dirs storages
  = storages ++ omap (propertiesOf fs ignore) dirs.
Proof.
  revert storages. induction dirs as [|devpath rest IH]; intros storages; simpl.
  - by rewrite app_nil_r.
  - unfold propertiesOf. fold (deviceName devpath).
    destruct (ignored ignore (deviceName devpath)); [apply IH|].
    destruct (getDeviceRotational Clean fs devpath) as [rot [e|]]; [apply IH|].
    destruct (getDeviceScheduler Clean fs devpath) as [sch [e|]]; [apply IH|].
    rewrite IH. by rewrite <- app_assoc.
Qed.

Lemma propertiesOf_device (fs : os.FileSystem) (ignore : option Regexp) (devpath : string)
    (s : storageDeviceProperties) :
  propertiesOf fs ignore devpath = Some s ->
  device s = deviceName devpath /\ ignored ignore (device s) = false /\
  getDeviceRotational Clean fs devpath = (rotational s, None) /\
  getDeviceScheduler Clean fs devpath = (scheduler s, None).
Proof.
  unfold propertiesOf.
  destruct (ignored ignore (deviceName devpath)) eqn:Hign; [done|].
  destruct (getDeviceRotational Clean fs devpath) as [rot [e|]]; [done|].
  destruct (getDeviceScheduler Clean fs devpath) as [sch [e|]]; [done|].
  by intros [= <-].
Qed.

(** [getDeviceRotational] succeeds on a readable file whose first line is
    "0" or "1" only. *)
Lemma getDeviceRotational_ok (fs : os.FileSystem) (devpath rot : string) :
  getDeviceRotational Clean fs devpath = (rot, None) ->
  exists content,
    os.ReadFile fs (Clean (devpath ++ "/queue/rotational")%string) = inl content /\
    firstLine content = rot /\ (rot = "0" \/ rot = "1")%string.
Proof.
  unfold getDeviceRotational.
  destruct (os.ReadFile fs _) as [content|e]; [|done].
  destruct (bufio.ReadLine content) as [line [e|]] eqn:Hline; [done|].
  destruct (String.eqb line "0" || String.eqb line "1") eqn:Hv; [|done].
  intros [= <-]. exists content. split; [done|].
  apply orb_true_iff in Hv. rewrite !String.eqb_eq in Hv.
  split; [|done].
  apply ReadLine_firstLine; [done|].
  assert (String.length line = 1) as -> by (by destruct Hv as [-> | ->]).
  unfold bufio.defaultBufSize. lia.
Qed.

Lemma getDeviceRotational_valid (fs : os.FileSystem) (devpath content : string) :
  os.ReadFile fs (Clean (devpath ++ "/queue/rotational")%string) = inl content ->
  (firstLine content = "0" \/ firstLine content = "1")%string ->
  getDeviceRotational Clean fs devpath = (firstLine content, None).
Proof.
  intros Hfile Hline. unfold getDeviceRotational. rewrite Hfile.
  rewrite (firstLine_ReadLine content (firstLine content)).
  - by destruct Hline as [-> | ->].
  - done.
  - by destruct Hline as [-> | ->].
  - destruct Hline as [-> | ->]; unfold bufio.defaultBufSize; simpl; lia.
Qed.

Lemma getDeviceScheduler_ok (fs : os.FileSystem) (devpath sch : string) :
  getDeviceScheduler Clean fs devpath = (sch, None) ->
  exists content, os.ReadFile fs (Clean (devpath ++ "/queue/scheduler")%string) = inl content.
Proof.
  unfold getDeviceScheduler.
  destruct (Compile _) as [re|e]; [|done].
  destruct (os.ReadFile fs _) as [content|e]; [|done]. by exists content.
Qed.

End ReaderFacts.

(** ** The orchestrator *)

Lemma NoDup_fmap_eq {A B : Type} (f : A -> B) (l : list A) (x y : A) :
  NoDup (map f l) -> x ∈ l -> y ∈ l -> f x = f y -> x = y.
Proof.
  induction l as [|a l IH]; simpl; intros Hnd Hx Hy Hf; [by apply elem_of_nil in Hx|].
  apply NoDup_cons in Hnd as [Ha Hnd].
  apply elem_of_cons in Hx as [->|Hx]; apply elem_of_cons in Hy as [->|Hy]; try done.
  - exfalso. apply Ha. rewrite Hf. by apply (list_elem_of_fmap_2 f).
  - exfalso. apply Ha. rewrite <- Hf. by apply (list_elem_of_fmap_2 f).
  - by apply IH.
Qed.

(** The sample a call of [mustNewConstMetric] makes when it does not
    panic, and whether it does not. *)
Definition metricOf (d : typedDesc) (value : float) (labels : list string)
    : prometheus.Metric :=
  prometheus.mkMetric (desc d) (valueType d)
    (if PrimFloat.eqb (factor d) 0 then value else PrimFloat.mul value (factor d)) labels.

Definition accepts (d : typedDesc) (labels : list string) : bool :=
  negb (prometheus.err (desc d)) &&
  (length labels =? length (prometheus.variableLabels (desc d)))%nat &&
  forallb utf8.ValidString labels.

Lemma mustNewConstMetric_accepts (d : typedDesc) (value : float) (labels : list string) :
  mustNewConstMetric d value labels
  = if accepts d labels then Some (metricOf d value labels) else None.
Proof.
  unfold mustNewConstMetric, prometheus.MustNewConstMetric, prometheus.NewConstMetric,
    accepts, metricOf.
  destruct (prometheus.err (desc d)); [done|].
  destruct (length labels =? _)%nat; [|done].
  by destruct (forallb utf8.ValidString labels).
Qed.

Lemma mustNewConstMetric_Some (d : typedDesc) (value : float) (labels : list string)
    (m : prometheus.Metric) :
  mustNewConstMetric d value labels = Some m ->
  m = metricOf d value labels /\ accepts d labels = true.
Proof.
  rewrite mustNewConstMetric_accepts. destruct (accepts d labels); [|done].
  by intros [= <-].
Qed.

(** A sample of the counters of [dev]: its labels are the device alone,
    or the device and the type of operation. *)
Definition forDevice (dev : string) (m : prometheus.Metric) : bool :=
  match prometheus.labelValues m with
  | [d] | [d; _] => String.eqb d dev
  | _ => false
  end.

(** The type of operation a sample is labelled with. *)
Definition opType (m : prometheus.Metric) : option string :=
  match prometheus.labelValues m with
  | [_; ty] => Some ty
  | _ => None
  end.

(** The samples of the reads and writes and the three gauges of the
    device, those of the discards, and those of the flushes. *)
Definition isReadWriteGauge (m : prometheus.Metric) : bool :=
  match opType m with
  | Some ty => String.eqb ty "reads" || String.eqb ty "writes"
  | None => true
  end.

Definition isDiscard (m : prometheus.Metric) : bool :=
  match opType m with
  | Some ty => String.eqb ty "discards"
  | None => false
  end.

Definition isFlush (m : prometheus.Metric) : bool :=
  match opType m with
  | Some ty => String.eqb ty "flush"
  | None => false
  end.

Definition countFor (dev : string) (kind : prometheus.Metric -> bool)
    (ch : list prometheus.Metric) : nat :=
  length (List.filter (fun m => forDevice dev m && kind m) ch).

Lemma filter_none {A : Type} (p : A -> bool) (l : list A) :
  Forall (fun x => p x = false) l -> List.filter p l = [].
Proof. induction 1 as [|x l Hx _ IH]; simpl; [done|]. by rewrite Hx. Qed.

Lemma filter_all {A : Type} (p : A -> bool) (l : list A) :
  Forall (fun x => p x = true) l -> List.filter p l = l.
Proof. induction 1 as [|x l Hx _ IH]; simpl; [done|]. by rewrite Hx, IH. Qed.

Lemma filter_filter_and {A : Type} (p q : A -> bool) (l : list A) :
  List.filter (fun x => p x && q x) l = List.filter q (List.filter p l).
Proof.
  induction l as [|x l IH]; simpl; [done|].
  destruct (p x); simpl; [|done]. destruct (q x); by rewrite IH.
Qed.

(** The positions of the counter vector: the descriptor each one is sent
    with, and its type of operation (none for the gauges of the device). *)
Definition positions (c : diskstatsCollector) : list (nat * typedDesc * list string) :=
  [ (0, completed c, ["reads"]); (1, merged c, ["reads"]); (2, bytes c, ["reads"]);
    (3, times c, ["reads"]); (4, completed c, ["writes"]); (5, merged c, ["writes"]);
    (6, bytes c, ["writes"]); (7, times c, ["writes"]); (8, ionow c, []);
    (9, iotime c, []); (10, iotimeweighted c, []);
    (11, completed c, ["discards"]); (12, merged c, ["discards"]);
    (13, bytes c, ["discards"]); (14, times c, ["discards"]);
    (15, completed c, ["flush"]); (16, times c, ["flush"]) ].

(** How many of the positions the guards of the loop let through. *)
Definition tier (n : nat) : nat :=
  if (17 <=? n)%nat then 17 else if (15 <=? n)%nat then 15
  else if (11 <=? n)%nat then 11 else 0.

(** The call for a position, and the sample it makes when it does not
    panic. *)
Definition callAt (dev : string) (stat : list float) (p : nat * typedDesc * list string)
    : option prometheus.Metric :=
  mustNewConstMetric p.1.2 (at_ stat p.1.1) (dev :: p.2).

Definition metricAt (dev : string) (stat : list float) (p : nat * typedDesc * list string)
    : prometheus.Metric :=
  metricOf p.1.2 (at_ stat p.1.1) (dev :: p.2).

(** The samples of an entry of the map, when no call panics. *)
Definition samplesOf (c : diskstatsCollector) (entry : string * list float)
    : list prometheus.Metric :=
  map (metricAt entry.1 entry.2) (take (tier (length entry.2)) (positions c)).

Lemma sendStat_table (c : diskstatsCollector) (dev : string) (stat : list float) :
  sendStat c (dev, stat)
  = map (callAt dev stat) (take (tier (length stat)) (positions c)).
Proof.
  unfold sendStat, tier.
  destruct (Nat.leb_spec 11 (length stat)), (Nat.leb_spec 15 (length stat)),
    (Nat.leb_spec 17 (length stat)); try lia; reflexivity.
Qed.

Lemma sendStat_elem (c : diskstatsCollector) (dev : string) (stat : list float)
    (m : prometheus.Metric) :
  Some m ∈ sendStat c (dev, stat) ->
  exists i d ty,
    (i, d, ty) ∈ positions c /\ i < length stat /\
    mustNewConstMetric d (at_ stat i) (dev :: ty) = Some m /\
    m = metricOf d (at_ stat i) (dev :: ty).
Proof.
  rewrite sendStat_table. intros Hm.
  apply list_elem_of_fmap in Hm as ([[i d] ty] & Hcall & Hin).
  exists i, d, ty. unfold callAt in Hcall. simpl in Hcall.
  split; [by eapply subseteq_take|]. split.
  - apply list_elem_of_lookup in Hin as [n Hn].
    apply lookup_take_Some in Hn as [Hn Hlt].
    assert (tier (length stat) <= length stat) as Htier
      by (unfold tier; destruct (Nat.leb_spec 17 (length stat)),
            (Nat.leb_spec 15 (length stat)), (Nat.leb_spec 11 (length stat)); lia).
    assert (i = n) as ->; [|lia].
    unfold positions in Hn.
    do 17 (destruct n as [|n]; [by injection Hn as <- _ _|]). done.
  - split; [done|]. symmetry in Hcall. by apply mustNewConstMetric_Some in Hcall as [-> _].
Qed.

Lemma samplesOf_elem (c : diskstatsCollector) (dev : string) (stat : list float)
    (m : prometheus.Metric) :
  m ∈ samplesOf c (dev, stat) ->
  exists i d ty, (i, d, ty) ∈ positions c /\ m = metricOf d (at_ stat i) (dev :: ty).
Proof.
  unfold samplesOf. intros Hm.
  apply list_elem_of_fmap in Hm as ([[i d] ty] & -> & Hin).
  exists i, d, ty. split; [by eapply subseteq_take | done].
Qed.

Lemma at_lookup (stat : list float) (i : nat) :
  i < length stat -> stat !! i = Some (at_ stat i).
Proof.
  intros Hi. unfold at_.
  destruct (lookup_lt_is_Some_2 stat i Hi) as [x Hx].
  rewrite Hx. f_equal. symmetry. by apply nth_lookup_Some.
Qed.

(** *** The sends *)

Lemma sendAll_elem (calls : list (option prometheus.Metric)) (m : prometheus.Metric) :
  m ∈ (sendAll calls).1 -> Some m ∈ calls.
Proof.
  induction calls as [|[m'|] calls IH]; simpl; [by intros H%elem_of_nil| |by intros H%elem_of_nil].
  destruct (sendAll calls) as [ch p]. simpl in *.
  intros [->|Hm]%elem_of_cons; [by left | right; by apply IH].
Qed.

Lemma sendAll_Some (ms : list prometheus.Metric) : sendAll (map Some ms) = (ms, false).
Proof. induction ms as [|m ms IH]; simpl; [done|]. by rewrite IH. Qed.

Lemma sendAll_returns (calls : list (option prometheus.Metric)) :
  (sendAll calls).2 = false -> calls = map Some (sendAll calls).1.
Proof.
  induction calls as [|[m|] calls IH]; simpl; [done| |done].
  destruct (sendAll calls) as [ch p]. simpl in *. intros Hp. by rewrite <- IH.
Qed.

Lemma sendAll_app (a b : list (option prometheus.Metric)) :
  sendAll (a ++ b)
  = if (sendAll a).2 then sendAll a
    else ((sendAll a).1 ++ (sendAll b).1, (sendAll b).2).
Proof.
  induction a as [|[m|] a IH]; simpl; [by destruct (sendAll b)| |done].
  rewrite IH. destruct (sendAll a) as [ch p]. simpl. by destruct p.
Qed.

(** The calls that return make the samples of the table. *)
Lemma calls_returned (dev : string) (stat : list float)
    (l : list (nat * typedDesc * list string)) :
  Forall is_Some (map (callAt dev stat) l) ->
  map (callAt dev stat) l = map Some (map (metricAt dev stat) l).
Proof.
  induction l as [|p l IH]; simpl; [done|].
  intros [[m Hm] Hrest]%Forall_cons. rewrite <- IH by done. f_equal.
  rewrite Hm. f_equal. unfold callAt in Hm. by apply mustNewConstMetric_Some in Hm as [-> _].
Qed.

Lemma sendStat_returned (c : diskstatsCollector) (entries : list (string * list float)) :
  Forall is_Some (flat_map (sendStat c) entries) ->
  flat_map (sendStat c) entries = map Some (flat_map (samplesOf c) entries).
Proof.
  induction entries as [|[dev stat] entries IH]; cbn [flat_map]; [done|].
  intros [Hhere Hrest]%Forall_app. rewrite map_app, <- IH by done. f_equal.
  rewrite sendStat_table in Hhere |- *. by apply calls_returned.
Qed.

Lemma map_Some_is_Some {A : Type} (l : list A) : Forall is_Some (map Some l).
Proof. induction l; simpl; by constructor. Qed.

(** When the loop over the entries does not panic, it sends the samples
    of the table, entry after entry. *)
Lemma sendAll_sendStat_returned (c : diskstatsCollector)
    (entries : list (string * list float)) :
  (sendAll (flat_map (sendStat c) entries)).2 = false ->
  (sendAll (flat_map (sendStat c) entries)).1 = flat_map (samplesOf c) entries.
Proof.
  intros Hp. pose proof (sendAll_returns _ Hp) as Hcalls.
  assert (Forall is_Some (flat_map (sendStat c) entries)) as Hall
    by (rewrite Hcalls; apply map_Some_is_Some).
  by rewrite (sendStat_returned c entries Hall), sendAll_Some.
Qed.

Lemma samplesOf_forDevice (c : diskstatsCollector) (dev dev' : string) (stat : list float) :
  Forall (fun m => forDevice dev' m = String.eqb dev dev') (samplesOf c (dev, stat)).
Proof.
  apply Forall_forall. intros m Hm.
  apply samplesOf_elem in Hm as (i & d & ty & Hpos & ->).
  unfold positions in Hpos. rewrite !elem_of_cons, elem_of_nil in Hpos.
  repeat (destruct Hpos as [Hpos|Hpos]); try done; by injection Hpos as -> -> ->.
Qed.

(** Among the samples sent for the entries of a map, those of one device
    are the samples of its entry. *)
Lemma filter_flat_map_samplesOf (c : diskstatsCollector) (dev : string) (stat : list float)
    (entries : list (string * list float)) :
  NoDup (map fst entries) -> (dev, stat) ∈ entries ->
  List.filter (forDevice dev) (flat_map (samplesOf c) entries) = samplesOf c (dev, stat).
Proof.
  induction entries as [|[d st] rest IH]; intros Hnd Hin; [by apply elem_of_nil in Hin|].
  simpl in Hnd. apply NoDup_cons in Hnd as [Hd Hnd].
  cbn [flat_map]. rewrite List.filter_app.
  apply elem_of_cons in Hin as [[= <- <-]|Hin].
  - rewrite filter_all.
    2:{ eapply Forall_impl; [apply samplesOf_forDevice|].
        intros m ->. apply String.eqb_refl. }
    rewrite filter_none; [apply app_nil_r|].
    apply Forall_forall. intros m Hm.
    apply list_elem_of_In, in_flat_map in Hm as ([d' st'] & Hin' & Hm).
    pose proof (samplesOf_forDevice c d' dev st') as Hall.
    rewrite Forall_forall in Hall. rewrite (Hall m) by by apply list_elem_of_In.
    apply String.eqb_neq. intros ->. apply Hd.
    apply list_elem_of_In in Hin'. by apply (list_elem_of_fmap_2 fst) in Hin'.
  - rewrite filter_none, IH; try done.
    eapply Forall_impl; [apply samplesOf_forDevice|].
    intros m ->. apply String.eqb_neq. intros ->. apply Hd.
    by apply (list_elem_of_fmap_2 fst) in Hin.
Qed.

(** The numbers of samples of an entry, by kind. *)
Lemma samplesOf_counts (c : diskstatsCollector) (dev : string) (stat : list float) :
  length (List.filter isReadWriteGauge (samplesOf c (dev, stat)))
    = (if (11 <=? length stat)%nat then 11 else 0) /\
  length (List.filter isDiscard (samplesOf c (dev, stat)))
    = (if (15 <=? length stat)%nat then 4 else 0) /\
  length (List.filter isFlush (samplesOf c (dev, stat)))
    = (if (17 <=? length stat)%nat then 2 else 0).
Proof.
  unfold samplesOf, tier. cbn [fst snd].
  destruct (Nat.leb_spec 11 (length stat)), (Nat.leb_spec 15 (length stat)),
    (Nat.leb_spec 17 (length stat)); try lia; repeat split; reflexivity.
Qed.

Section OrchestratorFacts.

Variable ParseFloat : string -> float * option error.
Variable Clean : string -> string.
Variable rangeMap : gmap string (list float) -> list (string * list float).

(** How [Update] ends after its sends. *)
Definition ending (panicked : bool) : outcome :=
  if panicked then Panicked else Returned None.

Lemma Update_error (c : diskstatsCollector) (fs : os.FileSystem)
    (stats : option (gmap string (list float))) (e : error) :
  getDiskstats ParseFloat fs (c_ignoredDevicesPattern c) = (stats, Some e) ->
  Update ParseFloat Clean rangeMap c fs
  = ([], Returned (Some ("get diskstats failed: " ++ e)%string)).
Proof. unfold Update. by intros ->. Qed.

Lemma Update_counters_only (c : diskstatsCollector) (fs : os.FileSystem)
    (stats : option (gmap string (list float))) (storages : list storageDeviceProperties)
    (e : error) :
  getDiskstats ParseFloat fs (c_ignoredDevicesPattern c) = (stats, None) ->
  getStorageProperties Clean fs "/sys/block/*" (c_ignoredDevicesPattern c) = (storages, Some e) ->
  Update ParseFloat Clean rangeMap c fs
  = ((sendStats rangeMap c (default ∅ stats)).1,
     ending (sendStats rangeMap c (default ∅ stats)).2).
Proof.
  unfold Update. intros -> ->.
  by destruct (sendStats rangeMap c (default ∅ stats)) as [ch []].
Qed.

Lemma Update_all (c : diskstatsCollector) (fs : os.FileSystem)
    (stats : option (gmap string (list float))) (storages : list storageDeviceProperties) :
  getDiskstats ParseFloat fs (c_ignoredDevicesPattern c) = (stats, None) ->
  getStorageProperties Clean fs "/sys/block/*" (c_ignoredDevicesPattern c) = (storages, None) ->
  Update ParseFloat Clean rangeMap c fs
  = if (sendStats rangeMap c (default ∅ stats)).2
    then ((sendStats rangeMap c (default ∅ stats)).1, Panicked)
    else ((sendStats rangeMap c (default ∅ stats)).1 ++ (sendStorages c storages).1,
          ending (sendStorages c storages).2).
Proof.
  unfold Update. intros -> ->.
  destruct (sendStats rangeMap c (default ∅ stats)) as [ch []]; [done|]. simpl.
  by destruct (sendStorages c storages) as [gauges []].
Qed.

(** Every sample of [Update] is a counter sample of an entry of the
    parsed map or the gauge of a storage property. *)
Lemma Update_elem (c : diskstatsCollector) (fs : os.FileSystem) (m : prometheus.Metric) :
  (forall stats, rangeMap stats ≡ₚ map_to_list stats) ->
  m ∈ (Update ParseFloat Clean rangeMap c fs).1 ->
  (exists stats dev stat,
     getDiskstats ParseFloat fs (c_ignoredDevicesPattern c) = (Some stats, None) /\
     stats !! dev = Some stat /\ Some m ∈ sendStat c (dev, stat)) \/
  (exists storages s,
     getStorageProperties Clean fs "/sys/block/*" (c_ignoredDevicesPattern c)
       = (storages, None) /\
     s ∈ storages /\ sendStorage c s = Some m).
Proof.
  intros Hperm.
  destruct (getDiskstats ParseFloat fs (c_ignoredDevicesPattern c)) as [stats [e|]] eqn:Hstats.
  { rewrite (Update_error _ _ _ _ Hstats). intros Hm. by apply elem_of_nil in Hm. }
  assert (m ∈ (sendStats rangeMap c (default ∅ stats)).1 ->
          exists stats' dev stat, (stats, @None error) = (Some stats', None) /\
            stats' !! dev = Some stat /\ Some m ∈ sendStat c (dev, stat)) as Hcounters.
  { intros Hm. apply sendAll_elem in Hm.
    apply list_elem_of_In, in_flat_map in Hm as ([dev stat] & Hin & Hm).
    apply list_elem_of_In in Hin, Hm. rewrite Hperm in Hin.
    apply elem_of_map_to_list in Hin.
    destruct stats as [stats|]; simpl in Hin; [|by rewrite lookup_empty in Hin].
    by exists stats, dev, stat. }
  destruct (getStorageProperties Clean fs "/sys/block/*" (c_ignoredDevicesPattern c))
    as [storages [e|]] eqn:Hprops.
  - rewrite (Update_counters_only _ _ _ _ _ Hstats Hprops). simpl.
    intros Hm. left. by apply Hcounters.
  - rewrite (Update_all _ _ _ _ Hstats Hprops).
    destruct (sendStats rangeMap c (default ∅ stats)).2; simpl;
      [intros Hm; left; by apply Hcounters|].
    rewrite elem_of_app. intros [Hm|Hm]; [left; by apply Hcounters|].
    right. apply sendAll_elem, list_elem_of_fmap in Hm as (s & Hm & Hs).
    by exists storages, s.
Qed.

(** The same without a word on the order of the visit. *)
Lemma Update_elem_any (c : diskstatsCollector) (fs : os.FileSystem) (m : prometheus.Metric) :
  m ∈ (Update ParseFloat Clean rangeMap c fs).1 ->
  (exists dev stat, Some m ∈ sendStat c (dev, stat)) \/
  (exists storages s,
     getStorageProperties Clean fs "/sys/block/*" (c_ignoredDevicesPattern c)
       = (storages, None) /\
     s ∈ storages /\ sendStorage c s = Some m).
Proof.
  destruct (getDiskstats ParseFloat fs (c_ignoredDevicesPattern c)) as [stats [e|]] eqn:Hstats.
  { rewrite (Update_error _ _ _ _ Hstats). intros Hm. by apply elem_of_nil in Hm. }
  assert (m ∈ (sendStats rangeMap c (default ∅ stats)).1 ->
          exists dev stat, Some m ∈ sendStat c (dev, stat)) as Hcounters.
  { intros Hm. apply sendAll_elem in Hm.
    apply list_elem_of_In, in_flat_map in Hm as ([dev stat] & _ & Hm).
    apply list_elem_of_In in Hm. by exists dev, stat. }
  destruct (getStorageProperties Clean fs "/sys/block/*" (c_ignoredDevicesPattern c))
    as [storages [e|]] eqn:Hprops.
  - rewrite (Update_counters_only _ _ _ _ _ Hstats Hprops). simpl.
    intros Hm. left. by apply Hcounters.
  - rewrite (Update_all _ _ _ _ Hstats Hprops).
    destruct (sendStats rangeMap c (default ∅ stats)).2; simpl;
      [intros Hm; left; by apply Hcounters|].
    rewrite elem_of_app. intros [Hm|Hm]; [left; by apply Hcounters|].
    right. apply sendAll_elem, list_elem_of_fmap in Hm as (s & Hm & Hs).
    by exists storages, s.
Qed.

(** When [Update] returns nil, it has sent the samples of the table for
    every entry of the map. *)
Lemma Update_returned_counters (c : diskstatsCollector) (fs : os.FileSystem)
    (stats : gmap string (list float)) (dev : string) :
  getDiskstats ParseFloat fs (c_ignoredDevicesPattern c) = (Some stats, None) ->
  (Update ParseFloat Clean rangeMap c fs).2 = Returned None ->
  (sendStats rangeMap c stats).2 = false /\
  List.filter (forDevice dev) (Update ParseFloat Clean rangeMap c fs).1
  = List.filter (forDevice dev) (sendStats rangeMap c stats).1.
Proof.
  intros Hstats.
  destruct (getStorageProperties Clean fs "/sys/block/*" (c_ignoredDevicesPattern c))
    as [storages [e|]] eqn:Hprops.
  - rewrite (Update_counters_only _ _ _ _ _ Hstats Hprops). simpl.
    by destruct (sendStats rangeMap c stats).2.
  - rewrite (Update_all _ _ _ _ Hstats Hprops). simpl.
    destruct (sendStats rangeMap c stats).2; [done|]. simpl. intros _. split; [done|].
    rewrite List.filter_app.
    rewrite (filter_none _ (sendStorages c storages).1); [by rewrite app_nil_r|].
    apply Forall_forall. intros m Hm.
    apply sendAll_elem, list_elem_of_fmap in Hm as (s & Hm & _).
    symmetry in Hm. unfold sendStorage in Hm.
    by apply mustNewConstMetric_Some in Hm as [-> _].
Qed.

End OrchestratorFacts.

(** * The claims *)

Section ParserClaims.

Variable ParseFloat : string -> float * option error.

(** C1, as amended.  For every input that is read to its end without a
    read error and in which no line reaches the scanner's limit of 65536
    bytes, [parseDiskstats] succeeds (returns a map and no error) if and
    only if every line has 14, 18 or 20 white-space separated tokens; on
    success every device in the map is the device of a line that is not
    ignored and maps to a vector of that line's width minus 3, and every
    device of a line that is not ignored is in the map; and a line of any
    other width makes the parse return an error and no map. *)
Theorem parseDiskstats_width_validation (r : io.Reader) (ignore : option Regexp) :
  io.rd_err r = None -> noLongLine r ->
  ((exists stats, parseDiskstats ParseFloat r ignore = (Some stats, None)) <->
   Forall (fun text => width text = 14 \/ width text = 18 \/ width text = 20) (lines r)) /\
  (forall stats, parseDiskstats ParseFloat r ignore = (Some stats, None) ->
     (forall dev stat, stats !! dev = Some stat ->
        exists text, text ∈ lines r /\ deviceOf text = dev /\
          ignored ignore dev = false /\ length stat = width text - 3) /\
     (forall text, text ∈ lines r -> ignored ignore (deviceOf text) = false ->
        is_Some (stats !! deviceOf text))) /\
  (forall text, text ∈ lines r ->
     ~ (width text = 14 \/ width text = 18 \/ width text = 20) ->
     exists e, parseDiskstats ParseFloat r ignore = (None, Some e)).
Proof.
  intros Heof Hshort.
  assert (forall text, widthOK text = true <->
            width text = 14 \/ width text = 18 \/ width text = 20) as Hw.
  { intros text. unfold widthOK.
    rewrite !orb_true_iff, !Nat.eqb_eq. tauto. }
  assert (parseDiskstats ParseFloat r ignore
          = scanLoop ParseFloat ignore (lines r) None ∅) as Hparse.
  { unfold parseDiskstats, bufio.NewScanner, lines.
    rewrite scanFrom_short by done. by rewrite Heof. }
  split; [|split].
  - split.
    + intros [stats Hstats].
      pose proof (proj1 (parseDiskstats_nil_iff ParseFloat r ignore)) as Hnil.
      rewrite Hstats in Hnil. destruct (Hnil eq_refl) as (_ & _ & Hok).
      eapply Forall_impl; [exact Hok|]. intros text. apply Hw.
    + intros Hall. rewrite Hparse.
      destruct (scanLoop_ok ParseFloat ignore (lines r) None ∅) as (stats & Hs & _).
      { eapply Forall_impl; [exact Hall|]. intros text. apply Hw. }
      by exists stats.
  - intros stats Hstats.
    pose proof (proj1 (parseDiskstats_nil_iff ParseFloat r ignore)) as Hnil.
    rewrite Hstats in Hnil. destruct (Hnil eq_refl) as (_ & _ & Hok).
    destruct (scanLoop_ok ParseFloat ignore (lines r) None ∅ Hok) as (stats' & Hs & Hl).
    rewrite Hparse, Hs in Hstats. injection Hstats as <-.
    split.
    + intros dev stat Hdev. rewrite Hl, lookup_empty in Hdev.
      destruct (lastStat ParseFloat ignore (lines r) dev) as [stat'|] eqn:Hlast; [|done].
      injection Hdev as ->.
      apply lastStat_Some in Hlast as (text & Hin & Hd & Hign & ->).
      exists text. by rewrite parseStat_length.
    + intros text Hin Hign. rewrite Hl.
      destruct (lastStat_retained ParseFloat ignore (lines r) text Hin Hign) as [stat ->].
      by eexists.
  - intros text Hin Hbad. rewrite Hparse.
    destruct (scanLoop_bad ParseFloat ignore (lines r) None ∅) as (t & _ & _ & ->).
    + apply Exists_exists. exists text. split; [done|].
      destruct (widthOK text) eqn:Hwt; [|done]. by apply Hw in Hwt.
    + by eexists.
Qed.

(** C9.  For every line of a valid width: the vector of the line has the
    line's width minus 3 positions; a position whose token fails to parse
    is 0 and every other position holds the value parsed from its token;
    the loop does not return at the line but goes on with the device's
    row in the map; and when the whole source is valid the parse succeeds
    with that row for the device (of the device's last line, should
    several lines name it). *)
Theorem parseDiskstats_token_failure (text : string) :
  width text = 14 \/ width text = 18 \/ width text = 20 ->
  (length (parseStat ParseFloat (strings.Fields text)) = width text - 3 /\
   forall i, i < width text - 3 ->
     parseStat ParseFloat (strings.Fields text) !! i =
       Some (match ParseFloat (nth (i + 3) (strings.Fields text) EmptyString) with
             | (_, Some _) => 0%float
             | (value, None) => value
             end)) /\
  (forall ignore rest scanErr stats,
     ignored ignore (deviceOf text) = false ->
     scanLoop ParseFloat ignore (text :: rest) scanErr stats =
     scanLoop ParseFloat ignore rest scanErr
       (<[deviceOf text := parseStat ParseFloat (strings.Fields text)]> stats)) /\
  (forall r ignore before after,
     io.rd_err r = None -> noLongLine r ->
     Forall (fun t => width t = 14 \/ width t = 18 \/ width t = 20) (lines r) ->
     lines r = before ++ text :: after ->
     ignored ignore (deviceOf text) = false ->
     Forall (fun t => deviceOf t <> deviceOf text) after ->
     exists stats,
       parseDiskstats ParseFloat r ignore = (Some stats, None) /\
       stats !! deviceOf text = Some (parseStat ParseFloat (strings.Fields text))).
Proof.
  intros Hwidth.
  assert (forall t, width t = 14 \/ width t = 18 \/ width t = 20 -> widthOK t = true) as Hok'.
  { intros t Ht. unfold widthOK. rewrite !orb_true_iff, !Nat.eqb_eq. tauto. }
  pose proof (Hok' text Hwidth) as Hw.
  split; [|split].
  - split; [apply parseStat_length|].
    intros i Hi. by rewrite parseStat_lookup.
  - intros ignore rest scanErr stats Hign. simpl.
    rewrite widthOK_test, Hw. simpl. fold (deviceOf text). by rewrite Hign.
  - intros r ignore before after Heof Hshort Hall Hsplit Hign Hafter.
    assert (Forall (fun t => widthOK t = true) (lines r)) as Hok
      by (eapply Forall_impl; [exact Hall | exact Hok']).
    destruct (scanLoop_ok ParseFloat ignore (lines r) None ∅ Hok) as (stats & Hs & Hl).
    exists stats. split.
    + unfold parseDiskstats, bufio.NewScanner. fold (lines r).
      unfold lines in Hs |- *. rewrite scanFrom_short by done. by rewrite Heof.
    + rewrite Hl, Hsplit. by rewrite lastStat_last.
Qed.

End ParserClaims.

Section OrchestratorClaims.

Variable ParseFloat : string -> float * option error.
Variable Clean : string -> string.
Variable rangeMap : gmap string (list float) -> list (string * list float).

(** The samples the loop of [Update] over the counters has sent, and
    whether it panicked. *)
Definition counterSamples (c : diskstatsCollector) (stats : option (gmap string (list float)))
    : list prometheus.Metric :=
  (sendStats rangeMap c (default ∅ stats)).1.

Definition counterPanic (c : diskstatsCollector) (stats : option (gmap string (list float)))
    : bool :=
  (sendStats rangeMap c (default ∅ stats)).2.

(** C2, as amended.  The loop of [Update], over any map, when none of its
    calls of [mustNewConstMetric] panics: for every device of the map it
    sends exactly 11 samples of reads, writes and device gauges when the
    vector of the device has at least 11 entries, exactly 4 samples of
    discards when it has at least 15, exactly 2 samples of flushes when
    it has at least 17, and no sample at all when it has fewer than 11.
    So does [Update], for every device of the parsed counter map, when it
    returns nil. *)
Theorem Update_sample_counts (c : diskstatsCollector) :
  (forall m, rangeMap m ≡ₚ map_to_list m) ->
  (forall (stats : gmap string (list float)) (dev : string) (stat : list float),
     stats !! dev = Some stat ->
     (sendStats rangeMap c stats).2 = false ->
     countFor dev isReadWriteGauge (sendStats rangeMap c stats).1
       = (if (11 <=? length stat)%nat then 11 else 0) /\
     countFor dev isDiscard (sendStats rangeMap c stats).1
       = (if (15 <=? length stat)%nat then 4 else 0) /\
     countFor dev isFlush (sendStats rangeMap c stats).1
       = (if (17 <=? length stat)%nat then 2 else 0) /\
     (length stat < 11 ->
      forall m, m ∈ (sendStats rangeMap c stats).1 -> forDevice dev m = false)) /\
  (forall (fs : os.FileSystem) (stats : gmap string (list float)) (dev : string)
          (stat : list float),
     getDiskstats ParseFloat fs (c_ignoredDevicesPattern c) = (Some stats, None) ->
     (Update ParseFloat Clean rangeMap c fs).2 = Returned None ->
     stats !! dev = Some stat ->
     countFor dev isReadWriteGauge (Update ParseFloat Clean rangeMap c fs).1
       = (if (11 <=? length stat)%nat then 11 else 0) /\
     countFor dev isDiscard (Update ParseFloat Clean rangeMap c fs).1
       = (if (15 <=? length stat)%nat then 4 else 0) /\
     countFor dev isFlush (Update ParseFloat Clean rangeMap c fs).1
       = (if (17 <=? length stat)%nat then 2 else 0)).
Proof.
  intros Hperm.
  assert (forall (stats : gmap string (list float)) dev stat,
            stats !! dev = Some stat -> (sendStats rangeMap c stats).2 = false ->
            List.filter (forDevice dev) (sendStats rangeMap c stats).1
            = samplesOf c (dev, stat)) as Hmine.
  { intros stats dev stat Hdev Hreturns. unfold sendStats in *.
    rewrite sendAll_sendStat_returned by done.
    apply filter_flat_map_samplesOf.
    - rewrite (Hperm stats). apply NoDup_fst_map_to_list.
    - rewrite (Hperm stats). by apply elem_of_map_to_list. }
  split.
  - intros stats dev stat Hdev Hreturns.
    specialize (Hmine stats dev stat Hdev Hreturns).
    destruct (samplesOf_counts c dev stat) as (Hrw & Hd & Hf).
    unfold countFor. rewrite !filter_filter_and, Hmine.
    split; [done|]. split; [done|]. split; [done|].
    intros Hshort m Hm. destruct (forDevice dev m) eqn:Hfor; [|done].
    assert (m ∈ samplesOf c (dev, stat)) as Hsent.
    { rewrite <- Hmine. apply list_elem_of_In, filter_In.
      split; [by apply list_elem_of_In | done]. }
    unfold samplesOf, tier in Hsent. cbn [fst snd] in Hsent.
    destruct (Nat.leb_spec 17 (length stat)), (Nat.leb_spec 15 (length stat)),
      (Nat.leb_spec 11 (length stat)); try lia.
    by apply elem_of_nil in Hsent.
  - intros fs stats dev stat Hstats Hreturns Hdev.
    destruct (Update_returned_counters ParseFloat Clean rangeMap c fs stats dev
                Hstats Hreturns) as [Hloop Hsame].
    specialize (Hmine stats dev stat Hdev Hloop).
    destruct (samplesOf_counts c dev stat) as (Hrw & Hd & Hf).
    unfold countFor. by rewrite !filter_filter_and, Hsame, Hmine.
Qed.

(** C3.  For every exclusion pattern and every device name it matches:
    the device is not in the counter map of the line parser, no property
    of the sysfs reader is of that device, and, since [Update] hands the
    collector's one pattern to both, no sample of [Update] is labelled
    with that device. *)
Theorem ignored_device_excluded (re : Regexp) (dev : string) :
  MatchString re dev = true ->
  (forall r stats e,
     parseDiskstats ParseFloat r (Some re) = (Some stats, e) -> stats !! dev = None) /\
  (forall fs path storages e,
     getStorageProperties Clean fs path (Some re) = (storages, e) ->
     forall s, s ∈ storages -> device s <> dev) /\
  (forall c fs m,
     c_ignoredDevicesPattern c = Some re ->
     (forall stats, rangeMap stats ≡ₚ map_to_list stats) ->
     m ∈ (Update ParseFloat Clean rangeMap c fs).1 ->
     head (prometheus.labelValues m) <> Some dev).
Proof.
  intros Hmatch.
  assert (forall r stats e,
            parseDiskstats ParseFloat r (Some re) = (Some stats, e) -> stats !! dev = None)
    as Hparse.
  { intros r stats e. unfold parseDiskstats.
    destruct (bufio.NewScanner r) as [texts scanErr].
    assert (forall stats0, stats0 !! dev = None ->
              scanLoop ParseFloat (Some re) texts scanErr stats0 = (Some stats, e) ->
              stats !! dev = None) as Hloop.
    { induction texts as [|text rest IH]; intros stats0 Hnone; simpl.
      - by intros [= <- _].
      - destruct (negb _ && negb _ && negb _); [done|].
        destruct (MatchString re (nth 2 (strings.Fields text) EmptyString)) eqn:Hign.
        + by apply IH.
        + apply IH. rewrite lookup_insert_ne; [done|]. intros Heq. congruence. }
    apply Hloop, lookup_empty. }
  assert (forall fs path storages e,
            getStorageProperties Clean fs path (Some re) = (storages, e) ->
            forall s, s ∈ storages -> device s <> dev) as Hprops.
  { intros fs path storages e. unfold getStorageProperties.
    destruct (os.Glob fs path) as [dirs|err];
      [|intros [= <- _] s Hs; by apply elem_of_nil in Hs].
    rewrite storagesLoop_omap. simpl. intros [= <- _] s Hs.
    apply list_elem_of_omap in Hs as (devpath & _ & Hs).
    apply propertiesOf_device in Hs as (_ & Hign & _).
    intros Heq. rewrite Heq in Hign. simpl in Hign. congruence. }
  split; [exact Hparse|]. split; [exact Hprops|].
  intros c fs m Hc Hperm Hm.
  apply Update_elem in Hm as [(stats & d & stat & Hstats & Hd & Hm)|(storages & s & Hst & Hs & Hm)];
    [| |done].
  - apply sendStat_elem in Hm as (i & td & ty & _ & _ & _ & ->). simpl.
    intros [= ->]. rewrite Hc in Hstats. unfold getDiskstats in Hstats.
    destruct (os.Open fs "/proc/diskstats") as [file|err]; [|done].
    apply Hparse in Hstats. congruence.
  - unfold sendStorage in Hm. apply mustNewConstMetric_Some in Hm as [-> _]. simpl.
    intros [= Heq]. rewrite Hc in Hst. by apply (Hprops _ _ _ _ Hst s Hs).
Qed.

(** C4.  When the counters cannot be had ([getDiskstats] returns an error:
    the file does not open, a line has a width that is not accepted, or
    the file cannot be read to its end) [Update] returns an error and has
    sent no sample.  When the counters are had and the properties are
    not, [Update] has sent the counter samples and no gauge of a storage
    property, and it returns nil, unless a call of the loop over the
    counters panicked, which ends [Update] before the properties are
    asked for.  When both are had, the counter samples are the same and
    the gauges follow them. *)
Theorem Update_failure_handling (c : diskstatsCollector) (fs : os.FileSystem) :
  (forall stats e,
     getDiskstats ParseFloat fs (c_ignoredDevicesPattern c) = (stats, Some e) ->
     Update ParseFloat Clean rangeMap c fs
     = ([], Returned (Some ("get diskstats failed: " ++ e)%string))) /\
  (forall e,
     os.Open fs "/proc/diskstats" = inr e ->
     Update ParseFloat Clean rangeMap c fs
     = ([], Returned (Some ("get diskstats failed: " ++ e)%string))) /\
  (forall r text,
     os.Open fs "/proc/diskstats" = inl r -> text ∈ lines r ->
     ~ (width text = 14 \/ width text = 18 \/ width text = 20) ->
     exists e, Update ParseFloat Clean rangeMap c fs = ([], Returned (Some e))) /\
  (forall r e,
     os.Open fs "/proc/diskstats" = inl r -> io.rd_err r = Some e ->
     exists e', Update ParseFloat Clean rangeMap c fs = ([], Returned (Some e'))) /\
  (forall stats storages e,
     getDiskstats ParseFloat fs (c_ignoredDevicesPattern c) = (stats, None) ->
     getStorageProperties Clean fs "/sys/block/*" (c_ignoredDevicesPattern c)
       = (storages, Some e) ->
     Update ParseFloat Clean rangeMap c fs
     = (counterSamples c stats, if counterPanic c stats then Panicked else Returned None) /\
     forall m s, m ∈ counterSamples c stats -> sendStorage c s <> Some m) /\
  (forall stats storages,
     getDiskstats ParseFloat fs (c_ignoredDevicesPattern c) = (stats, None) ->
     getStorageProperties Clean fs "/sys/block/*" (c_ignoredDevicesPattern c)
       = (storages, None) ->
     Update ParseFloat Clean rangeMap c fs
     = if counterPanic c stats then (counterSamples c stats, Panicked)
       else (counterSamples c stats ++ (sendStorages c storages).1,
             if (sendStorages c storages).2 then Panicked else Returned None)).
Proof.
  assert (forall r,
            os.Open fs "/proc/diskstats" = inl r ->
            (parseDiskstats ParseFloat r (c_ignoredDevicesPattern c)).2 <> None ->
            exists e, Update ParseFloat Clean rangeMap c fs = ([], Returned (Some e))) as Hfails.
  { intros r Hopen Herr.
    destruct (parseDiskstats ParseFloat r (c_ignoredDevicesPattern c))
      as [stats [e|]] eqn:Hparse; [|done].
    eexists. apply (Update_error _ _ _ _ _ stats).
    unfold getDiskstats. by rewrite Hopen. }
  split; [|split; [|split; [|split; [|split]]]].
  - intros stats e. apply Update_error.
  - intros e Hopen. apply (Update_error _ _ _ _ _ None).
    unfold getDiskstats. by rewrite Hopen.
  - intros r text Hopen Hin Hbad. apply (Hfails r Hopen).
    rewrite parseDiskstats_nil_iff. intros (_ & _ & Hok).
    rewrite Forall_forall in Hok. specialize (Hok text Hin).
    apply Hbad. unfold widthOK in Hok. rewrite !orb_true_iff, !Nat.eqb_eq in Hok. tauto.
  - intros r e Hopen Hread. apply (Hfails r Hopen).
    rewrite parseDiskstats_nil_iff. intros (Heof & _). congruence.
  - intros stats storages e Hstats Hprops. split; [by eapply Update_counters_only|].
    intros m s Hm Hgauge. unfold counterSamples, sendStats in Hm.
    apply sendAll_elem, list_elem_of_In, in_flat_map in Hm as ([dev stat] & _ & Hm).
    apply list_elem_of_In, sendStat_elem in Hm as (i & d & ty & Hpos & _ & _ & Heq).
    unfold sendStorage in Hgauge. apply mustNewConstMetric_Some in Hgauge as [Hm _].
    rewrite Hm in Heq. apply (f_equal prometheus.labelValues) in Heq. simpl in Heq.
    injection Heq as _ Hty. subst ty.
    unfold positions in Hpos. rewrite !elem_of_cons, elem_of_nil in Hpos.
    repeat (destruct Hpos as [Hpos|Hpos]); done.
  - intros stats storages Hstats Hprops.
    by rewrite (Update_all ParseFloat Clean rangeMap c fs stats storages Hstats Hprops).
Qed.

(** The value of [m] is what the vector of the device [m] is labelled
    with holds at the position the type of operation of [m] has in
    [positions], times [factor]. *)
Definition convertedFrom (fs : os.FileSystem) (m : prometheus.Metric)
    (positions : list (list string * nat)) (factor : float) : Prop :=
  exists stats dev ty stat i raw,
    getDiskstats ParseFloat fs (Some (MustCompile ignoredDevicesPattern))
      = (Some stats, None) /\
    prometheus.labelValues m = dev :: ty /\
    stats !! dev = Some stat /\ (ty, i) ∈ positions /\ stat !! i = Some raw /\
    prometheus.value m = (raw * factor)%float.

Lemma Update_conversion (labels : gmap string string) (fs : os.FileSystem)
    (m : prometheus.Metric) (poss : list (list string * nat)) (factor : float) :
  (forall stats, rangeMap stats ≡ₚ map_to_list stats) ->
  m ∈ (Update ParseFloat Clean rangeMap (NewDiskstatsCollector labels).1 fs).1 ->
  (prometheus.fqName (prometheus.desc m) = "node_disk_bytes_total" /\
   poss = [(["reads"], 2); (["writes"], 6); (["discards"], 13)] /\ factor = 512%float) \/
  (prometheus.fqName (prometheus.desc m) = "node_disk_time_seconds_total" /\
   poss = [(["reads"], 3); (["writes"], 7); (["discards"], 14); (["flush"], 16)] /\
   factor = 0.001%float) \/
  (prometheus.fqName (prometheus.desc m) = "node_disk_io_time_seconds_total" /\
   poss = [([], 9)] /\ factor = 0.001%float) \/
  (prometheus.fqName (prometheus.desc m) = "node_disk_io_time_weighted_seconds_total" /\
   poss = [([], 10)] /\ factor = 0.001%float) ->
  convertedFrom fs m poss factor.
Proof.
  intros Hperm Hm Hname.
  apply Update_elem in Hm
    as [(stats & dev & stat & Hstats & Hdev & Hm)|(storages & s & _ & _ & Hm)]; [| |done].
  2:{ unfold sendStorage in Hm. apply mustNewConstMetric_Some in Hm as [-> _].
      simpl in Hname. destruct Hname as [[? _]|[[? _]|[[? _]|[? _]]]]; discriminate. }
  apply sendStat_elem in Hm as (i & d & ty & Hpos & Hi & _ & ->).
  exists stats, dev, ty, stat, i, (at_ stat i).
  split; [exact Hstats|]. split; [reflexivity|]. split; [exact Hdev|].
  rewrite (at_lookup stat i Hi).
  unfold positions in Hpos. rewrite !elem_of_cons, elem_of_nil in Hpos.
  repeat (destruct Hpos as [Hpos|Hpos]); try done; injection Hpos as -> -> ->;
    simpl in Hname;
    destruct Hname as [(Hn & -> & ->)|[(Hn & -> & ->)|[(Hn & -> & ->)|(Hn & -> & ->)]]];
    try discriminate Hn;
    (split; [repeat first [apply list_elem_of_here | apply list_elem_of_further]|]);
    (split; reflexivity).
Qed.

(** C5, for the sample of a device and a type of operation.  With the
    descriptors of [NewDiskstatsCollector], the value of every sample of
    bytes is the sector count of the device the sample is labelled with,
    at the position of its type of operation (2 for reads, 6 for writes,
    13 for discards), times 512; and the value of every sample of time is
    the count of milliseconds of that device at the position of its type
    (3 for reads, 7 for writes, 14 for discards, 16 for flush; 9 for the
    I/O time and 10 for the weighted I/O time, which have no type) times
    0.001, the product being that of float64. *)
Theorem Update_unit_conversions (labels : gmap string string) (fs : os.FileSystem)
    (m : prometheus.Metric) :
  (forall stats, rangeMap stats ≡ₚ map_to_list stats) ->
  m ∈ (Update ParseFloat Clean rangeMap (NewDiskstatsCollector labels).1 fs).1 ->
  (prometheus.fqName (prometheus.desc m) = "node_disk_bytes_total" ->
   convertedFrom fs m [(["reads"], 2); (["writes"], 6); (["discards"], 13)] 512) /\
  (prometheus.fqName (prometheus.desc m) = "node_disk_time_seconds_total" ->
   convertedFrom fs m
     [(["reads"], 3); (["writes"], 7); (["discards"], 14); (["flush"], 16)] 0.001) /\
  (prometheus.fqName (prometheus.desc m) = "node_disk_io_time_seconds_total" ->
   convertedFrom fs m [([], 9)] 0.001) /\
  (prometheus.fqName (prometheus.desc m) = "node_disk_io_time_weighted_seconds_total" ->
   convertedFrom fs m [([], 10)] 0.001).
Proof.
  intros Hperm Hm.
  pose proof (fun poss factor => Update_conversion labels fs m poss factor Hperm Hm) as Hconv.
  repeat split; intros Hname; apply Hconv; tauto.
Qed.

(** C10.  With the descriptors of [NewDiskstatsCollector], every sample of
    storage_info has the value 1 and the labels device, rotational and
    scheduler of a property of the sequence, and, when [Update] returns
    nil, every property of the sequence has such a sample. *)
Theorem Update_storage_info_value (labels : gmap string string) (fs : os.FileSystem) :
  (forall m,
     m ∈ (Update ParseFloat Clean rangeMap (NewDiskstatsCollector labels).1 fs).1 ->
     prometheus.fqName (prometheus.desc m) = "node_system_storage_info" ->
     prometheus.value m = 1%float /\
     exists storages s,
       getStorageProperties Clean fs "/sys/block/*" (Some (MustCompile ignoredDevicesPattern))
         = (storages, None) /\
       s ∈ storages /\
       prometheus.labelValues m = [device s; rotational s; scheduler s]) /\
  (forall stats storages s,
     getDiskstats ParseFloat fs (Some (MustCompile ignoredDevicesPattern)) = (stats, None) ->
     getStorageProperties Clean fs "/sys/block/*" (Some (MustCompile ignoredDevicesPattern))
       = (storages, None) ->
     (Update ParseFloat Clean rangeMap (NewDiskstatsCollector labels).1 fs).2 = Returned None ->
     s ∈ storages ->
     exists m,
       m ∈ (Update ParseFloat Clean rangeMap (NewDiskstatsCollector labels).1 fs).1 /\
       prometheus.fqName (prometheus.desc m) = "node_system_storage_info" /\
       prometheus.labelValues m = [device s; rotational s; scheduler s] /\
       prometheus.value m = 1%float).
Proof.
  split.
  - intros m Hm Hname.
    apply Update_elem_any in Hm as [(dev & stat & Hm)|(storages & s & Hprops & Hs & Hm)].
    + apply sendStat_elem in Hm as (i & d & ty & Hpos & _ & _ & ->).
      unfold positions in Hpos. rewrite !elem_of_cons, elem_of_nil in Hpos.
      repeat (destruct Hpos as [Hpos|Hpos]); try done; injection Hpos as -> -> ->;
        discriminate Hname.
    + unfold sendStorage in Hm. apply mustNewConstMetric_Some in Hm as [-> _].
      split; [reflexivity|]. by exists storages, s.
  - intros stats storages s Hstats Hprops Hreturns Hs.
    rewrite (Update_all ParseFloat Clean rangeMap (NewDiskstatsCollector labels).1
               fs stats storages Hstats Hprops) in Hreturns |- *.
    set (c := (NewDiskstatsCollector labels).1) in *. revert Hreturns.
    destruct (sendStats rangeMap c (default ∅ stats)) as [ch []]; cbn [fst snd]; [done|].
    destruct (sendStorages c storages) as [gauges []] eqn:Hgauges; cbn [fst snd ending];
      [done|].
    intros _. unfold sendStorages in Hgauges.
    pose proof (sendAll_returns (map (sendStorage c) storages)) as Hcalls.
    rewrite Hgauges in Hcalls. specialize (Hcalls eq_refl). cbn [fst] in Hcalls.
    assert (sendStorage c s ∈ map (sendStorage c) storages) as Hcall
      by (by apply (list_elem_of_fmap_2 _)).
    rewrite Hcalls in Hcall.
    apply list_elem_of_fmap in Hcall as (m & Hcall & Hm).
    exists m. split; [apply elem_of_app; by right|].
    unfold sendStorage in Hcall.
    apply mustNewConstMetric_Some in Hcall as [-> _]. by subst c.
Qed.

End OrchestratorClaims.

Section ReaderClaims.

Variable Clean : string -> string.

(** C7.  For every set of candidate directories (no two of the same
    device) the glob returns, [getStorageProperties] returns nil as its
    error; a device whose [rotational] file cannot be read or has a first
    line other than "0" and "1", or whose [scheduler] file cannot be
    read, has no property in the sequence; and every device that is not
    excluded, whose [rotational] file has the first line "0" or "1" and
    whose scheduler is read without error has its property in the
    sequence. *)
Theorem getStorageProperties_partial_failure (fs : os.FileSystem) (path : string)
    (ignore : option Regexp) (dirs : list string) :
  os.Glob fs path = inl dirs ->
  NoDup (map deviceName dirs) ->
  exists storages,
    getStorageProperties Clean fs path ignore = (storages, None) /\
    forall devpath, devpath ∈ dirs ->
      ((exists e, os.ReadFile fs (Clean (devpath ++ "/queue/rotational")%string) = inr e) \/
       (exists content,
          os.ReadFile fs (Clean (devpath ++ "/queue/rotational")%string) = inl content /\
          firstLine content <> "0"%string /\ firstLine content <> "1"%string) \/
       (exists e, os.ReadFile fs (Clean (devpath ++ "/queue/scheduler")%string) = inr e) ->
       forall s, s ∈ storages -> device s <> deviceName devpath) /\
      (forall content sch,
         ignored ignore (deviceName devpath) = false ->
         os.ReadFile fs (Clean (devpath ++ "/queue/rotational")%string) = inl content ->
         (firstLine content = "0" \/ firstLine content = "1")%string ->
         getDeviceScheduler Clean fs devpath = (sch, None) ->
         {| device := deviceName devpath; rotational := firstLine content;
            scheduler := sch |} ∈ storages).
Proof.
  intros Hglob Hnd. unfold getStorageProperties. rewrite Hglob, storagesLoop_omap.
  eexists. split; [reflexivity|]. simpl.
  intros devpath Hin. split.
  - intros Hbad s Hs Hdev.
    apply list_elem_of_omap in Hs as (devpath' & Hin' & Hs).
    apply propertiesOf_device in Hs as (Hname & _ & Hrot & Hsch).
    assert (devpath' = devpath) as ->
      by (apply (NoDup_fmap_eq deviceName dirs); congruence).
    apply getDeviceRotational_ok in Hrot as (content & Hfile & Hline & Hval).
    apply getDeviceScheduler_ok in Hsch as (content' & Hfile').
    destruct Hbad as [[e He]|[(c & Hc & Hc0 & Hc1)|[e He]]]; [congruence| |congruence].
    assert (c = content) as -> by congruence.
    rewrite Hline in Hc0, Hc1. by destruct Hval.
  - intros content sch Hign Hfile Hline Hsch.
    apply list_elem_of_omap. exists devpath. split; [done|].
    unfold propertiesOf.
    by rewrite Hign, (getDeviceRotational_valid Clean fs devpath content Hfile Hline), Hsch.
Qed.

End ReaderClaims.

(** C8, as amended.  The default pattern excludes the ram disks, the loop
    devices and the floppy devices (the name of the class and a number),
    the partitions of the hd, sd, vd and xvd disks that are named with
    one letter (the class, the letter of the disk and the number of the
    partition) and the partitions of the NVMe namespaces; it retains
    every name that does not end with a digit, so the whole disks, such
    as [sda], and the NVMe namespaces, such as [nvme0n1], and it retains
    every name of these classes with a second letter, so the partitions
    of the disks named with two letters, such as [sdaa1]; and from the
    source of the two lines of [sda] and [loop0] the parser returns a
    map of [sda] alone. *)
Theorem default_pattern_classes :
  (forall d, someIn digitRanges d = true ->
     excluded ("ram" ++ d) = true /\ excluded ("loop" ++ d) = true /\
     excluded ("fd" ++ d) = true) /\
  (forall c d, inClass lowerRanges c = true -> someIn digitRanges d = true ->
     excluded ("hd" ++ String c d) = true /\ excluded ("sd" ++ String c d) = true /\
     excluded ("vd" ++ String c d) = true /\ excluded ("xvd" ++ String c d) = true) /\
  (forall d1 d2 d3,
     someIn digitRanges d1 = true -> someIn digitRanges d2 = true ->
     someIn digitRanges d3 = true ->
     excluded ("nvme" ++ d1 ++ "n" ++ d2 ++ "p" ++ d3) = true) /\
  (forall name, endsWithDigit name = false -> excluded name = false) /\
  (forall c, inClass lowerRanges c = true ->
     excluded ("hd" ++ String c "") = false /\ excluded ("sd" ++ String c "") = false /\
     excluded ("vd" ++ String c "") = false /\ excluded ("xvd" ++ String c "") = false) /\
  (forall d1 d2, someIn digitRanges d1 = true -> someIn digitRanges d2 = true ->
     excluded ("nvme" ++ d1 ++ "n" ++ d2) = false) /\
  (forall c1 c2 rest, inClass lowerRanges c1 = true -> inClass lowerRanges c2 = true ->
     excluded ("hd" ++ String c1 (String c2 rest)) = false /\
     excluded ("sd" ++ String c1 (String c2 rest)) = false /\
     excluded ("vd" ++ String c1 (String c2 rest)) = false /\
     excluded ("xvd" ++ String c1 (String c2 rest)) = false) /\
  (excluded "sda" = false /\ excluded "nvme0n1" = false /\ excluded "loop0" = true) /\
  (forall ParseFloat,
     parseDiskstats ParseFloat (io.mkReader two_devices None)
       (c_ignoredDevicesPattern (NewDiskstatsCollector ∅).1)
     = (Some {[ "sda"%string := parseStat ParseFloat (strings.Fields sda_line) ]}, None)).
Proof.
  split; [exact excluded_class_number|].
  split; [exact excluded_disk_partition|].
  split; [exact excluded_nvme_partition|].
  split; [exact retained_no_digit|].
  split.
  { intros c Hc. apply lower_not_digit in Hc.
    repeat split; apply retained_no_digit; exact Hc. }
  split; [exact retained_nvme_namespace|].
  split; [exact retained_second_letter|].
  split; [by vm_compute|].
  intros PF. vm_compute. reflexivity.
Qed.

(** C8 as the specification states it fails on the partitions of the
    disks that are named with two letters: [sdaa1], the first partition
    of the disk [sdaa], is a name of the class [sd] with a numeric
    suffix, and the pattern does not match it; the parser keeps its
    line. *)
Lemma default_pattern_counterexample :
  String.prefix "sd" "sdaa1" = true /\ endsWithDigit "sdaa1" = true /\
  excluded "sdaa1" = false /\ excluded "hdaa1" = false /\
  excluded "vdab2" = false /\ excluded "xvdaa1" = false /\
  exists stats,
    parseDiskstats decimalParseFloat
      (io.mkReader ("  65     1 sdaa1 131 0 8318 53 2 0 2 0 0 116 53" ++ LF)%string None)
      (c_ignoredDevicesPattern (NewDiskstatsCollector ∅).1) = (Some stats, None) /\
    is_Some (stats !! "sdaa1"%string).
Proof.
  repeat (split; [vm_compute; reflexivity|]).
  eexists. split; [vm_compute; reflexivity|]. vm_compute. eauto.
Qed.

(** C1 as the specification states it fails on two inputs whose every line
    has 14 tokens: a line of more than 65535 bytes, which the scanner
    gives up on, and a source whose reader ends with an I/O error. *)
Lemma parseDiskstats_width_counterexample :
  (Forall (fun text => width text = 14 \/ width text = 18 \/ width text = 20)
     (lines (io.mkReader long_line None)) /\
   parseDiskstats decimalParseFloat (io.mkReader long_line None) None =
     (Some ∅, Some "bufio.Scanner: token too long")) /\
  (Forall (fun text => width text = 14 \/ width text = 18 \/ width text = 20)
     (lines (io.mkReader sample_diskstats (Some "read /proc/diskstats: input/output error"))) /\
   (parseDiskstats decimalParseFloat
      (io.mkReader sample_diskstats (Some "read /proc/diskstats: input/output error")) None).2 =
     Some "read /proc/diskstats: input/output error").
Proof.
  split; split.
  - apply widths_check. vm_compute. reflexivity.
  - vm_compute. reflexivity.
  - apply widths_check. vm_compute. reflexivity.
  - vm_compute. reflexivity.
Qed.

Lemma parseDiskstats_width_validation_witness :
  io.rd_err (io.mkReader sample_diskstats None) = None /\
  noLongLine (io.mkReader sample_diskstats None) /\
  exists stats,
    parseDiskstats decimalParseFloat (io.mkReader sample_diskstats None)
      (Some (MustCompile ignoredDevicesPattern)) = (Some stats, None).
Proof.
  assert (noLongLine (io.mkReader sample_diskstats None)) as Hshort.
  { unfold noLongLine. vm_compute. repeat constructor. }
  split; [reflexivity|]. split; [exact Hshort|].
  apply (parseDiskstats_width_validation decimalParseFloat
           (io.mkReader sample_diskstats None)
           (Some (MustCompile ignoredDevicesPattern)) eq_refl Hshort).
  apply widths_check. vm_compute. reflexivity.
Defined.

Lemma parseDiskstats_token_failure_witness :
  width "8 0 sda 9253 x 609448 6038 18522 22413 1414704 37299 0 19216 43338" = 14 /\
  parseStat decimalParseFloat
    (strings.Fields "8 0 sda 9253 x 609448 6038 18522 22413 1414704 37299 0 19216 43338") !! 1
  = Some 0%float.
Proof.
  split; [reflexivity|].
  apply (parseDiskstats_token_failure decimalParseFloat
           "8 0 sda 9253 x 609448 6038 18522 22413 1414704 37299 0 19216 43338"
           (or_introl eq_refl)).
  vm_compute. lia.
Defined.

(** C6.  The reader returns [mq-deadline] for the line
    [noop [mq-deadline] kyber] and [none] for the line [none], and an
    error for every line in which its pattern finds nothing.  But the
    pattern, in which the brackets are not escaped, is a run of letters,
    hyphens and opening brackets before a closing bracket: for the line
    [mq-deadline] kyber], which has no token between brackets and no
    [none], the reader returns [mq-deadline] and no error, and the device
    is not skipped. *)
Theorem getDeviceScheduler_unbracketed :
  getDeviceScheduler (fun p => p) sample_fs "/sys/block/sda" = ("mq-deadline"%string, None) /\
  getDeviceScheduler (fun p => p) sample_fs "/sys/block/sdb" = ("none"%string, None) /\
  (forall Clean fs devpath content line,
     os.ReadFile fs (Clean (devpath ++ "/queue/scheduler")%string) = inl content ->
     bufio.ReadLine content = (line, None) ->
     Find (MustCompile "[[a-z-]+]|none") line = None ->
     getDeviceScheduler Clean fs devpath
     = (EmptyString, Some ("unknown scheduler: " ++ line)%string)) /\
  os.ReadFile unbracketed_fs "/sys/block/sda/queue/scheduler"
  = inl ("mq-deadline] kyber" ++ LF)%string /\
  getDeviceScheduler (fun p => p) unbracketed_fs "/sys/block/sda"
  = ("mq-deadline"%string, None) /\
  getStorageProperties (fun p => p) unbracketed_fs "/sys/block/*" None
  = ([{| device := "sda"; rotational := "0"; scheduler := "mq-deadline" |}], None).
Proof.
  split; [vm_compute; reflexivity|].
  split; [vm_compute; reflexivity|].
  split.
  { intros Clean fs devpath content line Hfile Hline Hfind.
    unfold getDeviceScheduler. rewrite Hfile, Hline.
    change (Compile "[[a-z-]+]|none") with (@inl Regexp error (MustCompile "[[a-z-]+]|none")).
    cbv beta iota. by rewrite Hfind. }
  split; [reflexivity|].
  split; vm_compute; reflexivity.
Qed.

(** A host whose counters file has one line, of a device whose name is
    not valid UTF-8 (the byte FF after [sd]). *)
Definition odd_name : string := String "s" (String "d" (String "255" EmptyString)).

Definition odd_name_fs : os.FileSystem :=
  {| os.Open := fun name =>
       if String.eqb name "/proc/diskstats"
       then inl (io.mkReader
                   ("   8       0 " ++ odd_name ++
                    " 9253 1728 609448 6038 18522 22413 1414704 37299 0 19216 43338" ++ LF)%string
                   None)
       else inr ("open " ++ name ++ ": no such file or directory")%string;
     os.Glob := fun pattern => inl [];
     os.ReadFile := fun name => inr ("open " ++ name ++ ": no such file or directory")%string |}.

(** C2 as the specification states it fails on a device whose name is not
    valid UTF-8: the device is in the parsed counter map with a vector of
    11 entries, the first call of [MustNewConstMetric] panics, and
    [Update] has sent no sample. *)
Lemma Update_sample_counts_counterexample :
  exists stats stat,
    getDiskstats decimalParseFloat odd_name_fs (c_ignoredDevicesPattern sample_collector)
      = (Some stats, None) /\
    stats !! odd_name = Some stat /\ length stat = 11 /\
    Update decimalParseFloat (fun p => p) map_to_list sample_collector odd_name_fs
      = ([], Panicked) /\
    countFor odd_name isReadWriteGauge
      (Update decimalParseFloat (fun p => p) map_to_list sample_collector odd_name_fs).1 = 0.
Proof.
  eexists _, _. split; [vm_compute; reflexivity|].
  split; [vm_compute; reflexivity|].
  split; [vm_compute; reflexivity|].
  split; vm_compute; reflexivity.
Qed.

Lemma Update_sample_counts_witness :
  (countFor "sda" isReadWriteGauge
     (Update decimalParseFloat (fun p => p) map_to_list sample_collector sample_fs).1 = 11 /\
   countFor "sda" isDiscard
     (Update decimalParseFloat (fun p => p) map_to_list sample_collector sample_fs).1 = 0 /\
   countFor "sda" isFlush
     (Update decimalParseFloat (fun p => p) map_to_list sample_collector sample_fs).1 = 0) /\
  (forall m,
     m ∈ (sendStats map_to_list sample_collector
            {[ "sdb"%string := [1; 2; 3]%float ]}).1 ->
     forDevice "sdb" m = false).
Proof.
  destruct (Update_sample_counts decimalParseFloat (fun p => p) map_to_list
              sample_collector (fun m => reflexivity _)) as [Hloop Hupdate].
  split.
  - apply (Hupdate sample_fs
             {[ "sda"%string := parseStat decimalParseFloat (strings.Fields sda_line) ]}
             "sda" (parseStat decimalParseFloat (strings.Fields sda_line))).
    + vm_compute. reflexivity.
    + vm_compute. reflexivity.
    + vm_compute. reflexivity.
  - refine (proj2 (proj2 (proj2 (Hloop {[ "sdb"%string := [1; 2; 3]%float ]} "sdb"
                                   [1; 2; 3]%float _ _))) _).
    + vm_compute. reflexivity.
    + vm_compute. reflexivity.
    + simpl. lia.
Defined.

Lemma ignored_device_excluded_witness :
  MatchString (MustCompile ignoredDevicesPattern) "loop0" = true /\
  forall r stats e,
    parseDiskstats decimalParseFloat r (Some (MustCompile ignoredDevicesPattern))
      = (Some stats, e) ->
    stats !! "loop0"%string = None.
Proof.
  assert (MatchString (MustCompile ignoredDevicesPattern) "loop0" = true) as Hmatch
    by (vm_compute; reflexivity).
  split; [exact Hmatch|].
  exact (proj1 (ignored_device_excluded decimalParseFloat (fun p => p) map_to_list
                  (MustCompile ignoredDevicesPattern) "loop0" Hmatch)).
Defined.

Lemma Update_unit_conversions_witness :
  convertedFrom decimalParseFloat sample_fs
    (metricOf (bytes sample_collector) 609448 ["sda"; "reads"]%string)
    [(["reads"], 2); (["writes"], 6); (["discards"], 13)]%string 512.
Proof.
  refine (proj1 (Update_unit_conversions decimalParseFloat (fun p => p) map_to_list
                   ∅ sample_fs
                   (metricOf (bytes sample_collector) 609448 ["sda"; "reads"]%string)
                   _ _) _).
  - intros stats. reflexivity.
  - apply (list_elem_of_lookup_2 _ 2). vm_compute. reflexivity.
  - reflexivity.
Defined.

Lemma getStorageProperties_partial_failure_witness :
  exists storages,
    getStorageProperties (fun p => p) sample_fs "/sys/block/*"
      (Some (MustCompile ignoredDevicesPattern)) = (storages, None) /\
    (forall s, s ∈ storages -> device s <> "sdb"%string) /\
    {| device := "sr0"; rotational := "1"; scheduler := "none" |} ∈ storages.
Proof.
  destruct (getStorageProperties_partial_failure (fun p => p) sample_fs "/sys/block/*"
              (Some (MustCompile ignoredDevicesPattern))
              ["/sys/block/loop0"; "/sys/block/sda"; "/sys/block/sdb"; "/sys/block/sr0"]%string)
    as (storages & Hres & Hall).
  - reflexivity.
  - apply (bool_decide_unpack _). vm_compute. reflexivity.
  - exists storages. split; [exact Hres|]. split.
    + apply (proj1 (Hall "/sys/block/sdb"%string
                      ltac:(apply (list_elem_of_lookup_2 _ 2); reflexivity))).
      right. left. exists ("2" ++ LF)%string. vm_compute. by repeat split.
    + apply (proj2 (Hall "/sys/block/sr0"%string
                      ltac:(apply (list_elem_of_lookup_2 _ 3); reflexivity))
               ("1" ++ LF)%string "none"%string).
      * vm_compute. reflexivity.
      * vm_compute. reflexivity.
      * right. vm_compute. reflexivity.
      * vm_compute. reflexivity.
Defined.

(** * Further properties of the collector *)

(** ** The line parser *)

(** An accepted width, as a proposition. *)
Definition accepted (text : string) : Prop :=
  width text = 14 \/ width text = 18 \/ width text = 20.

Lemma widthOK_accepted (text : string) : widthOK text = true <-> accepted text.
Proof. unfold widthOK, accepted. rewrite !orb_true_iff, !Nat.eqb_eq. tauto. Qed.

Lemma widthOK_not_accepted (text : string) : widthOK text = false <-> ~ accepted text.
Proof.
  rewrite <- widthOK_accepted. by destruct (widthOK text).
Qed.

Section ParserExtras.

Variable ParseFloat : string -> float * option error.

(** The loop returns at the first line whose width is not accepted. *)
Lemma scanLoop_first_bad (ignore : option Regexp) (before after : list string) (text : string)
    (scanErr : option error) (stats : gmap string (list float)) :
  Forall accepted before -> ~ accepted text ->
  scanLoop ParseFloat ignore (before ++ text :: after) scanErr stats
  = (None, Some ("invalid /proc/diskstats file, too few columns in line: " ++ text)%string).
Proof.
  intros Hbefore Hbad. revert stats.
  induction Hbefore as [|t before Ht _ IH]; intros stats; simpl.
  - rewrite widthOK_test. apply widthOK_not_accepted in Hbad. by rewrite Hbad.
  - rewrite widthOK_test. apply widthOK_accepted in Ht. rewrite Ht. simpl.
    destruct (ignored ignore _); apply IH.
Qed.

(** X1.  When no line reaches the scanner's limit, the error of
    [parseDiskstats] cites the first line whose width is not accepted,
    whatever follows it and however the reader ends, and no map is
    returned. *)
Theorem parseDiskstats_first_bad_line (r : io.Reader) (ignore : option Regexp)
    (before after : list string) (text : string) :
  noLongLine r -> lines r = before ++ text :: after ->
  Forall accepted before -> ~ accepted text ->
  parseDiskstats ParseFloat r ignore
  = (None, Some ("invalid /proc/diskstats file, too few columns in line: " ++ text)%string).
Proof.
  intros Hshort Hlines Hbefore Hbad.
  unfold parseDiskstats, bufio.NewScanner.
  rewrite scanFrom_short by exact Hshort. fold (lines r). rewrite Hlines.
  by apply scanLoop_first_bad.
Qed.

(** Every vector the loop adds has the width of its line minus 3. *)
Lemma scanLoop_lengths (ignore : option Regexp) (texts : list string) (scanErr e : option error)
    (stats0 stats : gmap string (list float)) :
  (forall dev stat, stats0 !! dev = Some stat ->
     length stat = 11 \/ length stat = 15 \/ length stat = 17) ->
  scanLoop ParseFloat ignore texts scanErr stats0 = (Some stats, e) ->
  forall dev stat, stats !! dev = Some stat ->
    length stat = 11 \/ length stat = 15 \/ length stat = 17.
Proof.
  revert stats0. induction texts as [|text rest IH]; intros stats0 Hinv; simpl.
  - by intros [= <- _].
  - rewrite widthOK_test. destruct (widthOK text) eqn:Hw; simpl; [|done].
    destruct (ignored ignore _); [by apply IH|].
    apply IH. intros dev stat. rewrite lookup_insert.
    case_decide; [|by apply Hinv].
    intros [= <-]. rewrite parseStat_length.
    apply widthOK_accepted in Hw. unfold accepted, width in Hw. lia.
Qed.

(** X2.  Every vector of a map [parseDiskstats] returns, with or without
    an error beside it, has 11, 15 or 17 entries. *)
Theorem parseDiskstats_vector_lengths (r : io.Reader) (ignore : option Regexp)
    (stats : gmap string (list float)) (e : option error) (dev : string) (stat : list float) :
  parseDiskstats ParseFloat r ignore = (Some stats, e) ->
  stats !! dev = Some stat ->
  length stat = 11 \/ length stat = 15 \/ length stat = 17.
Proof.
  unfold parseDiskstats. destruct (bufio.NewScanner r) as [texts scanErr].
  intros Hloop. apply (scanLoop_lengths ignore texts scanErr e ∅ stats); [|exact Hloop].
  intros d s Hd. by rewrite lookup_empty in Hd.
Qed.

(** What the loop returns, by the first line it cannot accept. *)
Lemma scanLoop_results (ignore : option Regexp) (texts : list string) (scanErr : option error)
    (stats0 : gmap string (list float)) :
  (exists stats, scanLoop ParseFloat ignore texts scanErr stats0 = (Some stats, scanErr)) \/
  (exists text, text ∈ texts /\ ~ accepted text /\
     scanLoop ParseFloat ignore texts scanErr stats0
     = (None, Some ("invalid /proc/diskstats file, too few columns in line: " ++ text)%string)).
Proof.
  destruct (widths_dec texts) as [Hok|Hbad].
  - left. destruct (scanLoop_ok ParseFloat ignore texts scanErr stats0 Hok) as (stats & Hs & _).
    by exists stats.
  - right. destruct (scanLoop_bad ParseFloat ignore texts scanErr stats0 Hbad)
      as (text & Hin & Hw & Hs).
    exists text. by rewrite <- widthOK_not_accepted.
Qed.

(** X3.  The results of [parseDiskstats]: its error is nil exactly when
    the reader ends at end of file, no line reaches the scanner's limit
    and every line has an accepted width; it returns no map only with the
    error that cites a line of another width; and an error that comes
    with a map is the scanner's: a line too long, or the reader's error. *)
Theorem parseDiskstats_results (r : io.Reader) (ignore : option Regexp) :
  ((parseDiskstats ParseFloat r ignore).2 = None <->
   io.rd_err r = None /\ noLongLine r /\ Forall accepted (lines r)) /\
  ((parseDiskstats ParseFloat r ignore).1 = None ->
   exists text, text ∈ lines r /\ ~ accepted text /\
     (parseDiskstats ParseFloat r ignore).2
     = Some ("invalid /proc/diskstats file, too few columns in line: " ++ text)%string) /\
  (forall stats e,
     parseDiskstats ParseFloat r ignore = (Some stats, Some e) ->
     e = bufio.ErrTooLong \/ io.rd_err r = Some e).
Proof.
  split; [|split].
  - rewrite parseDiskstats_nil_iff.
    assert (Forall (fun t => widthOK t = true) (lines r) <-> Forall accepted (lines r)) as Hiff.
    { rewrite !Forall_forall. split; intros H t Ht; apply widthOK_accepted, H, Ht. }
    tauto.
  - unfold parseDiskstats, bufio.NewScanner, lines.
    destruct (bufio.scanFrom (bufio.rawLines (io.rd_data r)) (io.rd_err r))
      as [texts scanErr] eqn:Hscan.
    destruct (scanLoop_results ignore texts scanErr ∅) as [[stats ->]|(text & Hin & Hbad & ->)];
      [done|].
    intros _. exists text. split; [|done].
    clear -Hscan Hin.
    revert texts scanErr Hscan Hin.
    induction (bufio.rawLines (io.rd_data r)) as [|l ls IH]; intros texts scanErr; simpl.
    + intros [= <- _] Hin. by apply elem_of_nil in Hin.
    + destruct (bufio.tooLong l); [intros [= <- _] Hin; by apply elem_of_nil in Hin|].
      destruct (bufio.scanFrom ls (io.rd_err r)) as [ts e'] eqn:Hrest.
      intros [= <- <-] Hin. apply elem_of_cons in Hin as [->|Hin]; [by left|].
      right. by apply (IH ts e').
  - intros stats e. unfold parseDiskstats, bufio.NewScanner.
    destruct (lengths_dec (bufio.rawLines (io.rd_data r))) as [Hshort|Hlong].
    + rewrite scanFrom_short by done.
      destruct (scanLoop_results ignore (map bufio.dropCR (bufio.rawLines (io.rd_data r)))
                  (io.rd_err r) ∅) as [[stats' ->]|(text & _ & _ & ->)]; [|done].
      intros [= _ ->]. by right.
    + destruct (scanFrom_long _ (io.rd_err r) Hlong) as [before ->].
      destruct (scanLoop_results ignore before (Some bufio.ErrTooLong) ∅)
        as [[stats' ->]|(text & _ & _ & ->)]; [|done].
      intros [= _ <-]. by left.
Qed.

End ParserExtras.

(** ** The orchestrator *)

Lemma length_flat_map {A B : Type} (f : A -> list B) (l : list A) :
  length (flat_map f l) = sum_list_with (fun x => length (f x)) l.
Proof. induction l as [|x l IH]; simpl; [done|]. by rewrite length_app, IH. Qed.

(** The calls of the loop over the entries of a map whose vectors have
    the widths the parser gives: one call for each position of the
    vector. *)
Lemma flat_map_sendStat (c : diskstatsCollector) (l : list (string * list float)) :
  Forall (fun entry => length entry.2 = 11 \/ length entry.2 = 15 \/ length entry.2 = 17) l ->
  flat_map (sendStat c) l
  = flat_map (fun entry => map (callAt entry.1 entry.2)
                             (take (length entry.2) (positions c))) l.
Proof.
  induction 1 as [|[dev stat] rest Hlen _ IH]; cbn [flat_map]; [done|].
  rewrite IH, sendStat_table. cbn [fst snd] in *. do 2 f_equal.
  unfold tier. destruct Hlen as [->|[->| ->]]; reflexivity.
Qed.

Lemma length_calls (c : diskstatsCollector) (l : list (string * list float)) :
  Forall (fun entry => length entry.2 = 11 \/ length entry.2 = 15 \/ length entry.2 = 17) l ->
  length (flat_map (fun entry => map (callAt entry.1 entry.2)
                                   (take (length entry.2) (positions c))) l)
  = sum_list_with (fun entry => length entry.2) l.
Proof.
  rewrite length_flat_map.
  induction 1 as [|[dev stat] rest Hlen _ IH]; cbn [sum_list_with]; [done|].
  rewrite IH. f_equal. cbn [fst snd] in *.
  rewrite length_map, length_take.
  change (length (positions c)) with 17. lia.
Qed.

Lemma length_sendAll (calls : list (option prometheus.Metric)) :
  (sendAll calls).2 = false -> length (sendAll calls).1 = length calls.
Proof.
  intros Hreturns. rewrite (sendAll_returns calls Hreturns) at 2. by rewrite length_map.
Qed.

Section OrchestratorExtras.

Variable ParseFloat : string -> float * option error.
Variable Clean : string -> string.
Variable rangeMap : gmap string (list float) -> list (string * list float).

Lemma getDiskstats_lengths (fs : os.FileSystem) (ignore : option Regexp)
    (stats : gmap string (list float)) (e : option error) (dev : string) (stat : list float) :
  getDiskstats ParseFloat fs ignore = (Some stats, e) ->
  stats !! dev = Some stat ->
  length stat = 11 \/ length stat = 15 \/ length stat = 17.
Proof.
  unfold getDiskstats, parseDiskstats.
  destruct (os.Open fs "/proc/diskstats") as [file|err]; [|done].
  destruct (bufio.NewScanner file) as [texts scanErr].
  intros Hloop. apply (scanLoop_lengths ParseFloat ignore texts scanErr e ∅ stats); [|exact Hloop].
  intros d s Hd. by rewrite lookup_empty in Hd.
Qed.

(** The calls of [mustNewConstMetric] of a run of [Update] over the map
    [stats], in order: for each entry of the map, in the order of the
    range, one call for each position of its vector, in the order of the
    positions; then one call for each storage property. *)
Definition callsOf (c : diskstatsCollector) (fs : os.FileSystem)
    (stats : gmap string (list float)) : list (option prometheus.Metric) :=
  flat_map (fun entry => map (callAt entry.1 entry.2) (take (length entry.2) (positions c)))
    (rangeMap stats) ++
  match getStorageProperties Clean fs "/sys/block/*" (c_ignoredDevicesPattern c) with
  | (storages, None) => map (sendStorage c) storages
  | (_, Some _) => []
  end.

(** X4.  When the counters are had, [Update] makes, for each entry of the
    map in the order of the range, one call of [mustNewConstMetric] for
    each position of its vector, in the order of the positions (reads,
    writes, the gauges of the device, discards, flushes; the call for
    position [i] is given [stat[i]] and the device), and after them one
    call for each storage property, in the order of the sequence.  It
    sends the sample of each call up to the first one that panics, and
    panics with it; when no call panics it returns nil, and the number of
    samples is the number of counters parsed plus the number of
    properties. *)
Theorem Update_samples_by_position (c : diskstatsCollector) (fs : os.FileSystem)
    (stats : gmap string (list float)) :
  (forall m, rangeMap m ≡ₚ map_to_list m) ->
  getDiskstats ParseFloat fs (c_ignoredDevicesPattern c) = (Some stats, None) ->
  Update ParseFloat Clean rangeMap c fs
  = ((sendAll (callsOf c fs stats)).1,
     if (sendAll (callsOf c fs stats)).2 then Panicked else Returned None) /\
  ((Update ParseFloat Clean rangeMap c fs).2 = Returned None ->
   map Some (Update ParseFloat Clean rangeMap c fs).1 = callsOf c fs stats /\
   length (Update ParseFloat Clean rangeMap c fs).1
   = sum_list_with (fun entry => length entry.2) (map_to_list stats) +
     match getStorageProperties Clean fs "/sys/block/*" (c_ignoredDevicesPattern c) with
     | (storages, None) => length storages
     | (_, Some _) => 0
     end).
Proof.
  intros Hperm Hstats.
  assert (Forall (fun entry => length entry.2 = 11 \/ length entry.2 = 15 \/
                                length entry.2 = 17) (rangeMap stats)) as Hall.
  { apply Forall_forall. intros [dev stat] Hin. rewrite (Hperm stats) in Hin.
    apply elem_of_map_to_list in Hin. by apply (getDiskstats_lengths _ _ _ _ _ _ Hstats Hin). }
  assert (Update ParseFloat Clean rangeMap c fs
          = ((sendAll (callsOf c fs stats)).1,
             if (sendAll (callsOf c fs stats)).2 then Panicked else Returned None)) as Hrun.
  { unfold callsOf. rewrite <- (flat_map_sendStat c _ Hall), sendAll_app.
    destruct (getStorageProperties Clean fs "/sys/block/*" (c_ignoredDevicesPattern c))
      as [storages [e|]] eqn:Hprops.
    - rewrite (Update_counters_only _ _ _ _ _ _ _ _ Hstats Hprops).
      unfold sendStats, ending. change (default ∅ (Some stats)) with stats.
      destruct (sendAll (flat_map (sendStat c) (rangeMap stats))) as [ch []]; cbn [fst snd];
        [done|]. by rewrite app_nil_r.
    - rewrite (Update_all _ _ _ _ _ _ _ Hstats Hprops).
      unfold sendStats, sendStorages, ending. change (default ∅ (Some stats)) with stats.
      by destruct (sendAll (flat_map (sendStat c) (rangeMap stats))) as [ch []]. }
  split; [exact Hrun|].
  rewrite Hrun. cbn [fst snd].
  destruct (sendAll (callsOf c fs stats)).2 eqn:Hreturns; [done|]. intros _.
  split; [symmetry; by apply sendAll_returns|].
  rewrite (length_sendAll _ Hreturns). unfold callsOf.
  rewrite length_app, (length_calls c _ Hall).
  assert (sum_list_with (fun entry : string * list float => length entry.2) (rangeMap stats)
          = sum_list_with (fun entry => length entry.2) (map_to_list stats)) as ->
    by (by rewrite (Hperm stats)).
  f_equal.
  destruct (getStorageProperties Clean fs "/sys/block/*" (c_ignoredDevicesPattern c))
    as [storages [e|]]; [done|]. by rewrite length_map.
Qed.

(** X5.  With the descriptors of [NewDiskstatsCollector], every sample of
    [Update] is made by a call of [mustNewConstMetric] on one of the
    eight descriptors of the collector, with as many label values as the
    descriptor has variable labels, and the descriptor carries the
    constant labels the collector was made with. *)
Theorem Update_label_counts (labels : gmap string string) (fs : os.FileSystem)
    (m : prometheus.Metric) :
  m ∈ (Update ParseFloat Clean rangeMap (NewDiskstatsCollector labels).1 fs).1 ->
  exists d value ls,
    mustNewConstMetric d value ls = Some m /\
    d ∈ [ completed (NewDiskstatsCollector labels).1; merged (NewDiskstatsCollector labels).1;
          bytes (NewDiskstatsCollector labels).1; times (NewDiskstatsCollector labels).1;
          ionow (NewDiskstatsCollector labels).1; iotime (NewDiskstatsCollector labels).1;
          iotimeweighted (NewDiskstatsCollector labels).1;
          storages (NewDiskstatsCollector labels).1 ] /\
    length ls = length (prometheus.variableLabels (desc d)) /\
    prometheus.constLabels (desc d) = labels.
Proof.
  intros Hm.
  apply Update_elem_any in Hm as [(dev & stat & Hm)|(sts & s & _ & _ & Hm)].
  - apply sendStat_elem in Hm as (i & d & ty & Hpos & _ & Hcall & _).
    exists d, (at_ stat i), (dev :: ty). split; [done|].
    unfold positions in Hpos. rewrite !elem_of_cons, elem_of_nil in Hpos.
    repeat (destruct Hpos as [Hpos|Hpos]); try done; injection Hpos as -> -> ->;
      (split; [|by split]);
      repeat first [apply list_elem_of_here | apply list_elem_of_further].
  - eexists _, _, _. split; [exact Hm|]. split; [|by split].
    repeat first [apply list_elem_of_here | apply list_elem_of_further].
Qed.

End OrchestratorExtras.

(** ** The sysfs property reader *)

Section ReaderExtras.

Variable Clean : string -> string.

(** What is asked of a directory for its device to have a property. *)
Definition readable (fs : os.FileSystem) (ignore : option Regexp) (devpath : string) : Prop :=
  ignored ignore (deviceName devpath) = false /\
  (getDeviceRotational Clean fs devpath).2 = None /\
  (getDeviceScheduler Clean fs devpath).2 = None.

(** A property and the directory it was read from. *)
Definition readFrom (fs : os.FileSystem) (ignore : option Regexp)
    (s : storageDeviceProperties) (devpath : string) : Prop :=
  device s = deviceName devpath /\
  ignored ignore (device s) = false /\
  (rotational s = "0" \/ rotational s = "1")%string /\
  getDeviceRotational Clean fs devpath = (rotational s, None) /\
  getDeviceScheduler Clean fs devpath = (scheduler s, None).

Lemma propertiesOf_Some (fs : os.FileSystem) (ignore : option Regexp) (devpath : string)
    (s : storageDeviceProperties) :
  propertiesOf Clean fs ignore devpath = Some s ->
  readFrom fs ignore s devpath /\ readable fs ignore devpath.
Proof.
  intros Hs. apply propertiesOf_device in Hs as (Hname & Hign & Hrot & Hsch).
  pose proof (getDeviceRotational_ok Clean fs devpath _ Hrot) as (content & _ & _ & Hval).
  split; [done|]. unfold readable. by rewrite <- Hname, Hrot, Hsch.
Qed.

Lemma propertiesOf_None (fs : os.FileSystem) (ignore : option Regexp) (devpath : string) :
  propertiesOf Clean fs ignore devpath = None -> ~ readable fs ignore devpath.
Proof.
  unfold propertiesOf, readable. intros Hnone (Hign & Hrot & Hsch). rewrite Hign in Hnone.
  destruct (getDeviceRotational Clean fs devpath) as [rot [e|]]; [done|].
  by destruct (getDeviceScheduler Clean fs devpath) as [sch [e|]].
Qed.

Lemma omap_propertiesOf (fs : os.FileSystem) (ignore : option Regexp) (dirs : list string) :
  exists kept,
    sublist kept dirs /\
    Forall2 (readFrom fs ignore) (omap (propertiesOf Clean fs ignore) dirs) kept /\
    forall devpath, devpath ∈ kept <-> devpath ∈ dirs /\ readable fs ignore devpath.
Proof.
  induction dirs as [|d rest (kept & Hsub & Hall & Hin)].
  - exists []. split; [constructor|]. split; [constructor|].
    intros devpath. rewrite elem_of_nil. tauto.
  - cbn [omap list_omap]. destruct (propertiesOf Clean fs ignore d) as [s|] eqn:Hd.
    + apply propertiesOf_Some in Hd as [Hfrom Hread].
      exists (d :: kept). split; [by constructor|]. split; [by constructor|].
      intros devpath. rewrite !elem_of_cons, Hin. split.
      * intros [->|[Hrest Hok]]; [by split; [left|] | by split; [right|]].
      * intros [[->|Hrest] Hok]; [by left | by right].
    + apply propertiesOf_None in Hd.
      exists kept. split; [by constructor|]. split; [done|].
      intros devpath. rewrite elem_of_cons, Hin. split.
      * intros [Hrest Hok]. by split; [right|].
      * intros [[->|Hrest] Hok]; [done | by split].
Qed.

(** X6.  The properties [getStorageProperties] returns come from the
    directories of the glob in the order of the glob, one property for a
    directory at most, and this with or without directories of the same
    name: there is a subsequence of the directories, those whose device
    is not excluded and whose two attributes are read without error, of
    which the sequence of the properties is the image; each property has
    the name of its directory, "0" or "1" as [rotational], and as
    [scheduler] what [getDeviceScheduler] returns for the directory. *)
Theorem getStorageProperties_in_order (fs : os.FileSystem) (path : string)
    (ignore : option Regexp) (dirs : list string) :
  os.Glob fs path = inl dirs ->
  (getStorageProperties Clean fs path ignore).2 = None /\
  exists kept,
    sublist kept dirs /\
    Forall2 (readFrom fs ignore) (getStorageProperties Clean fs path ignore).1 kept /\
    forall devpath, devpath ∈ kept <-> devpath ∈ dirs /\ readable fs ignore devpath.
Proof.
  intros Hglob. unfold getStorageProperties. rewrite Hglob, storagesLoop_omap.
  split; [done|]. apply omap_propertiesOf.
Qed.

(** X7.  [getDeviceRotational] returns a value and no error exactly when
    the file is read and its first line is "0" or "1", and the value is
    that line; with an error it returns the empty string, and the error is
    that of the read, [io.EOF] for a file that is empty, or cites the
    line that is neither "0" nor "1". *)
Theorem getDeviceRotational_results (fs : os.FileSystem) (devpath : string) :
  (forall rot,
     getDeviceRotational Clean fs devpath = (rot, None) <->
     exists content,
       os.ReadFile fs (Clean (devpath ++ "/queue/rotational")%string) = inl content /\
       firstLine content = rot /\ (rot = "0" \/ rot = "1")%string) /\
  (forall rot e,
     getDeviceRotational Clean fs devpath = (rot, Some e) ->
     rot = EmptyString /\
     (os.ReadFile fs (Clean (devpath ++ "/queue/rotational")%string) = inr e \/
      (os.ReadFile fs (Clean (devpath ++ "/queue/rotational")%string) = inl EmptyString /\
       e = io.EOF) \/
      exists content line,
        os.ReadFile fs (Clean (devpath ++ "/queue/rotational")%string) = inl content /\
        bufio.ReadLine content = (line, None) /\
        line <> "0"%string /\ line <> "1"%string /\
        e = ("unknown rotational " ++ line)%string)).
Proof.
  split.
  - intros rot. split; [apply getDeviceRotational_ok|].
    intros (content & Hfile & <- & Hval). by apply getDeviceRotational_valid.
  - intros rot e. unfold getDeviceRotational.
    destruct (os.ReadFile fs _) as [content|err]; [|intros [= <- <-]; by split; [|left]].
    destruct (bufio.ReadLine content) as [line [err|]] eqn:Hline.
    + intros [= <- <-]. split; [done|]. right. left.
      unfold bufio.ReadLine in Hline. destruct content as [|c content]; [by injection Hline as _ <-|].
      destruct (bufio.beforeLF _); [done|]. by destruct (Nat.eqb _ _).
    + destruct (String.eqb line "0" || String.eqb line "1") eqn:Hv; [done|].
      intros [= <- <-]. split; [done|]. right. right. exists content, line.
      apply orb_false_iff in Hv as [H0 H1]. apply String.eqb_neq in H0, H1. done.
Qed.

End ReaderExtras.

(** ** The scheduler reader *)

(** The class of the pattern of [getDeviceScheduler], and the characters
    of the name of a scheduler. *)
Definition schedulerRanges : list (ascii * ascii) := [("[", "["); ("a", "z"); ("-", "-")]%char.

Definition nameRanges : list (ascii * ascii) := [("a", "z"); ("-", "-")]%char.

(** The two alternatives of the pattern. *)
Definition bracketToken : Regexp := Cat (Plus (Class schedulerRanges)) (Char "]").

Definition noneWord : Regexp :=
  Cat (Char "n") (Cat (Char "o") (Cat (Char "n") (Char "e"))).

Lemma schedulerPattern_compiled :
  Compile "[[a-z-]+]|none" = inl (Alt bracketToken noneWord).
Proof. reflexivity. Qed.

(** What is left of a line neither goes on with a character of the class
    nor with a closing bracket. *)
Definition stops (rest : string) : bool :=
  match rest with
  | EmptyString => true
  | String c _ => negb (inClass schedulerRanges c) && negb (Ascii.eqb c "]")
  end.

(** Whether [t] occurs in [s]. *)
Fixpoint occurs (t s : string) : bool :=
  String.prefix t s ||
  match s with
  | EmptyString => false
  | String _ s' => occurs t s'
  end.

(** Whether [s] ends with a character of the class. *)
Fixpoint endsIn (ranges : list (ascii * ascii)) (s : string) : bool :=
  match s with
  | EmptyString => false
  | String c EmptyString => inClass ranges c
  | String _ rest => endsIn ranges rest
  end.

(** The beginning of a line in which the pattern finds nothing, whatever
    follows: it has no closing bracket and no [none], and does not end
    with a character of the class (the names of the schedulers that are
    not active, each with a space after it). *)
Definition quiet (pre : string) : bool :=
  negb (occurs "]" pre) && negb (occurs "none" pre) && negb (endsIn schedulerRanges pre).

Lemma class_not_close (c : ascii) :
  inClass schedulerRanges c = true -> Ascii.eqb c "]" = false.
Proof. destruct c as [[] [] [] [] [] [] [] []]; vm_compute; intros; try done. Qed.

Lemma name_in_class (c : ascii) :
  inClass nameRanges c = true ->
  inClass schedulerRanges c = true /\ bytes.inCutset "[]" c = false.
Proof. destruct c as [[] [] [] [] [] [] [] []]; vm_compute; intros; try done. Qed.

Lemma allIn_name_class (n : string) :
  allIn nameRanges n = true -> allIn schedulerRanges n = true.
Proof.
  induction n as [|c n IH]; simpl; [done|]. rewrite !andb_true_iff.
  intros [Hc Hn]. split; [by apply name_in_class | by apply IH].
Qed.

Lemma stops_startsIn (rest : string) :
  stops rest = true -> startsIn schedulerRanges rest = false.
Proof.
  destruct rest as [|c rest]; simpl; [done|]. rewrite andb_true_iff, !negb_true_iff. tauto.
Qed.

Lemma close_after_run (k : nat -> string -> option nat) (j : nat) (q rest : string) :
  someIn schedulerRanges q = true -> run (Char "]") j (q ++ rest)%string k = None.
Proof.
  destruct q as [|c q]; [done|]. simpl. rewrite andb_true_iff. intros [Hc _].
  by rewrite (class_not_close c Hc).
Qed.

(** The first alternative on a run of the class and a closing bracket. *)
Lemma bracketToken_run (i : nat) (d rest : string) (k : nat -> string -> option nat) :
  someIn schedulerRanges d = true ->
  run bracketToken i (d ++ String "]" rest)%string k = k (S (i + String.length d)) rest.
Proof.
  intros Hd. unfold bracketToken.
  rewrite run_Cat_Plus_Class, plusClass_exact; [|done|done|].
  - cbn [run]. by rewrite Ascii.eqb_refl.
  - intros j q Hq. by apply close_after_run.
Qed.

(** The first alternative on a run of the class that no closing bracket
    follows. *)
Lemma bracketToken_fails (i : nat) (d rest : string) (k : nat -> string -> option nat) :
  allIn schedulerRanges d = true -> stops rest = true ->
  run bracketToken i (d ++ rest)%string k = None.
Proof.
  intros Hd Hrest. unfold bracketToken. rewrite run_Cat_Plus_Class.
  destruct d as [|c d].
  - apply plusClass_stop. by apply stops_startsIn.
  - rewrite plusClass_exact; [|done|by apply stops_startsIn|].
    + destruct rest as [|c' rest]; [done|]. simpl in Hrest |- *.
      apply andb_true_iff in Hrest as [_ Hclose]. apply negb_true_iff in Hclose.
      by rewrite Hclose.
    + intros j q Hq. by apply close_after_run.
Qed.

Lemma occurs_tail (t : string) (c : ascii) (u : string) :
  occurs t (String c u) = false -> occurs t u = false.
Proof. simpl. rewrite orb_false_iff. tauto. Qed.

Lemma occurs_close_head (c : ascii) (u : string) :
  occurs "]" (String c u) = false -> Ascii.eqb c "]" = false.
Proof.
  simpl. rewrite orb_false_iff. intros [Hpre _].
  destruct (Ascii.eqb_spec c "]") as [->|Hne]; [|done].
  simpl in Hpre. by destruct u.
Qed.

Lemma plusClass_quiet (u v : string) (i : nat) (k : nat -> string -> option nat) :
  occurs "]" u = false -> endsIn schedulerRanges u = false -> u <> EmptyString ->
  plusClass schedulerRanges (fun j t => run (Char "]") j t k) i (u ++ v)%string = None.
Proof.
  revert i. induction u as [|c u IH]; intros i Hclose Hend Hne; [done|].
  rewrite append_cons. cbn [plusClass].
  destruct (inClass schedulerRanges c) eqn:Hc; [|done].
  destruct u as [|c' u']; [cbn [endsIn] in Hend; congruence|].
  rewrite IH; [|by eapply occurs_tail|done|done].
  apply occurs_tail, occurs_close_head in Hclose.
  rewrite append_cons. cbn [orElse run]. by rewrite Hclose.
Qed.

Lemma noneWord_quiet (u v : string) (i : nat) (k : nat -> string -> option nat) :
  occurs "none" u = false -> endsIn schedulerRanges u = false -> u <> EmptyString ->
  run noneWord i (u ++ v)%string k = None.
Proof.
  intros Hnone Hend Hne. unfold noneWord.
  destruct u as [|a u]; [done|]. rewrite append_cons. cbn [run].
  destruct (Ascii.eqb_spec a "n") as [->|]; [|done].
  destruct u as [|b u]; [done|]. rewrite append_cons.
  destruct (Ascii.eqb_spec b "o") as [->|]; [|done].
  destruct u as [|c u]; [done|]. rewrite append_cons.
  destruct (Ascii.eqb_spec c "n") as [->|]; [|done].
  destruct u as [|d u]; [done|]. rewrite append_cons.
  destruct (Ascii.eqb_spec d "e") as [->|]; [|done].
  destruct u; vm_compute in Hnone; done.
Qed.

Lemma quiet_tail (c : ascii) (u : string) : quiet (String c u) = true -> quiet u = true.
Proof.
  unfold quiet. rewrite !andb_true_iff, !negb_true_iff.
  intros [[Hclose Hnone] Hend].
  destruct u as [|c' u']; [done|].
  split; [split|]; [by eapply occurs_tail | by eapply occurs_tail | done].
Qed.

(** The pattern finds nothing that begins in a quiet beginning. *)
Lemma run_quiet (u v : string) (i : nat) (k : nat -> string -> option nat) :
  quiet u = true -> u <> EmptyString ->
  run (Alt bracketToken noneWord) i (u ++ v)%string k = None.
Proof.
  unfold quiet. rewrite !andb_true_iff, !negb_true_iff.
  intros [[Hclose Hnone] Hend] Hne.
  change (run (Alt bracketToken noneWord) i (u ++ v)%string k)
    with (orElse (run bracketToken i (u ++ v)%string k) (run noneWord i (u ++ v)%string k)).
  unfold bracketToken. rewrite run_Cat_Plus_Class, plusClass_quiet by done.
  by rewrite noneWord_quiet.
Qed.

Lemma search_quiet (u v : string) (i : nat) :
  quiet u = true ->
  search (Alt bracketToken noneWord) i (u ++ v)%string
  = search (Alt bracketToken noneWord) (i + String.length u) v.
Proof.
  revert i. induction u as [|c u IH]; intros i Hu.
  - by rewrite append_nil_l, Nat.add_0_r.
  - rewrite append_cons.
    change (search (Alt bracketToken noneWord) i (String c (u ++ v)%string))
      with (match run (Alt bracketToken noneWord) i (String c (u ++ v)%string)
                    (fun j _ => Some j) with
            | Some e => Some (i, e)
            | None => search (Alt bracketToken noneWord) (S i) (u ++ v)%string
            end).
    rewrite <- append_cons, run_quiet by done.
    rewrite IH by (by eapply quiet_tail). f_equal. simpl. lia.
Qed.

Lemma search_here (re : Regexp) (i : nat) (s : string) (e : nat) :
  run re i s (fun j _ => Some j) = Some e -> search re i s = Some (i, e).
Proof. intros Hrun. destruct s; simpl; by rewrite Hrun. Qed.

Lemma length_append (s t : string) :
  String.length (s ++ t)%string = String.length s + String.length t.
Proof. induction s as [|c s IH]; [done|]. rewrite append_cons. simpl. by rewrite IH. Qed.

Lemma substring_start (t rest : string) :
  String.substring 0 (String.length t) (t ++ rest)%string = t.
Proof.
  induction t as [|c t IH]; [by destruct rest|].
  rewrite append_cons. simpl. by rewrite IH.
Qed.

Lemma substring_middle (pre t rest : string) :
  String.substring (String.length pre) (String.length t) (pre ++ t ++ rest)%string = t.
Proof.
  induction pre as [|c pre IH]; [exact (substring_start t rest)|].
  rewrite append_cons. simpl. exact IH.
Qed.

(** What the pattern finds after a quiet beginning is what it matches
    there. *)
Lemma Find_after_quiet (pre t rest : string) :
  quiet pre = true ->
  run (Alt bracketToken noneWord) (String.length pre) (t ++ rest)%string (fun j _ => Some j)
  = Some (String.length pre + String.length t) ->
  Find (Alt bracketToken noneWord) (pre ++ t ++ rest)%string = Some t.
Proof.
  intros Hpre Hrun. unfold Find.
  rewrite search_quiet by done. rewrite Nat.add_0_l, (search_here _ _ _ _ Hrun).
  replace (String.length pre + String.length t - String.length pre)
    with (String.length t) by lia.
  by rewrite substring_middle.
Qed.

Lemma TrimRight_name (n : string) :
  allIn nameRanges n = true -> bytes.TrimRight (n ++ "]")%string "[]" = n.
Proof.
  induction n as [|c n IH]; [reflexivity|].
  simpl allIn. rewrite andb_true_iff. intros [Hc Hn].
  rewrite append_cons. cbn [bytes.TrimRight]. rewrite IH by done.
  destruct n; [|done]. by rewrite (proj2 (name_in_class c Hc)).
Qed.

Lemma Trim_bracketed (n : string) :
  someIn nameRanges n = true -> bytes.Trim (String "[" (n ++ "]"))%string "[]" = n.
Proof.
  destruct n as [|c n]; [done|]. intros Hn. unfold bytes.Trim.
  assert (bytes.TrimLeft (String "[" (String c n ++ "]")) "[]" = (String c n ++ "]")%string)
    as ->.
  { simpl in Hn. apply andb_true_iff in Hn as [Hc _].
    rewrite append_cons. cbn [bytes.TrimLeft].
    change (bytes.inCutset "[]" "[") with true. cbv iota.
    by rewrite (proj2 (name_in_class c Hc)). }
  by apply TrimRight_name.
Qed.

Section SchedulerExtras.

Variable Clean : string -> string.

Lemma getDeviceScheduler_found (fs : os.FileSystem) (devpath content line sched : string) :
  os.ReadFile fs (Clean (devpath ++ "/queue/scheduler")%string) = inl content ->
  bufio.ReadLine content = (line, None) ->
  Find (Alt bracketToken noneWord) line = Some sched ->
  getDeviceScheduler Clean fs devpath = (bytes.Trim sched "[]", None).
Proof.
  intros Hfile Hline Hfind. unfold getDeviceScheduler.
  rewrite schedulerPattern_compiled, Hfile, Hline. cbv beta iota. by rewrite Hfind.
Qed.

(** X8.  For a scheduler file whose first line has, after a beginning in
    which the pattern finds nothing (no closing bracket, no [none], and
    not ending with a letter, a hyphen or an opening bracket: the names of
    other schedulers, each with a space after it), a name of lower-case
    letters and hyphens between brackets, [getDeviceScheduler] returns
    that name and no error, whatever follows the closing bracket. *)
Theorem getDeviceScheduler_bracketed (fs : os.FileSystem)
    (devpath content pre name rest : string) :
  os.ReadFile fs (Clean (devpath ++ "/queue/scheduler")%string) = inl content ->
  bufio.ReadLine content = ((pre ++ "[" ++ name ++ "]" ++ rest)%string, None) ->
  quiet pre = true -> someIn nameRanges name = true ->
  getDeviceScheduler Clean fs devpath = (name, None).
Proof.
  intros Hfile Hline Hpre Hname.
  assert (allIn nameRanges name = true) as Hall by (by destruct name).
  rewrite <- (Trim_bracketed name Hname).
  apply (getDeviceScheduler_found fs devpath content _ _ Hfile Hline).
  replace ("[" ++ name ++ "]" ++ rest)%string
    with (String "[" (name ++ "]") ++ rest)%string
    by (by rewrite !append_cons, append_nil_l, <- append_assoc).
  apply Find_after_quiet; [done|].
  replace (String "[" (name ++ "]") ++ rest)%string
    with (String "[" name ++ String "]" rest)%string
    by (by rewrite !append_cons, <- append_assoc).
  change (run (Alt bracketToken noneWord) (String.length pre)
            (String "[" name ++ String "]" rest)%string (fun j _ => Some j))
    with (orElse (run bracketToken (String.length pre)
                    (String "[" name ++ String "]" rest)%string (fun j _ => Some j))
                 (run noneWord (String.length pre)
                    (String "[" name ++ String "]" rest)%string (fun j _ => Some j))).
  rewrite bracketToken_run.
  - simpl. f_equal. rewrite length_append. simpl. lia.
  - simpl. by apply allIn_name_class.
Qed.

(** X9.  For a scheduler file whose first line has, after such a
    beginning, the word [none], and after it the end of the line or a
    character that is no letter, hyphen or bracket (a space),
    [getDeviceScheduler] returns [none] and no error, whatever follows:
    the pattern is looked for from the left, so a name between brackets
    that comes after [none] in the line is not what is returned. *)
Theorem getDeviceScheduler_none_listed (fs : os.FileSystem)
    (devpath content pre rest : string) :
  os.ReadFile fs (Clean (devpath ++ "/queue/scheduler")%string) = inl content ->
  bufio.ReadLine content = ((pre ++ "none" ++ rest)%string, None) ->
  quiet pre = true -> stops rest = true ->
  getDeviceScheduler Clean fs devpath = ("none"%string, None).
Proof.
  intros Hfile Hline Hpre Hrest.
  change (getDeviceScheduler Clean fs devpath = (bytes.Trim "none" "[]", None)).
  apply (getDeviceScheduler_found fs devpath content _ _ Hfile Hline).
  apply Find_after_quiet; [done|].
  change (run (Alt bracketToken noneWord) (String.length pre)
            ("none" ++ rest)%string (fun j _ => Some j))
    with (orElse (run bracketToken (String.length pre)
                    ("none" ++ rest)%string (fun j _ => Some j))
                 (run noneWord (String.length pre)
                    ("none" ++ rest)%string (fun j _ => Some j))).
  rewrite bracketToken_fails by done.
  rewrite !append_cons, append_nil_l. unfold noneWord. cbn [orElse run].
  rewrite !Ascii.eqb_refl. f_equal. simpl. lia.
Qed.

End SchedulerExtras.

(** *** What the reader returns *)

Lemma search_found (re : Regexp) (s : string) (i b e : nat) :
  search re i s = Some (b, e) ->
  exists u v, s = (u ++ v)%string /\ b = i + String.length u /\
    run re b v (fun j _ => Some j) = Some e.
Proof.
  revert i. induction s as [|c s IH]; intros i; simpl.
  - destruct (run re i EmptyString _) as [e'|] eqn:Hrun; [|done].
    intros [= <- <-]. exists EmptyString, EmptyString. by rewrite Nat.add_0_r.
  - destruct (run re i (String c s) _) as [e'|] eqn:Hrun.
    + intros [= <- <-]. exists EmptyString, (String c s). by rewrite Nat.add_0_r.
    + intros Hs. apply IH in Hs as (u & v & -> & -> & Hrun').
      exists (String c u), v. split; [done|]. split; [simpl; lia | done].
Qed.

Lemma run_Alt_inv (a b : Regexp) (i : nat) (s : string) (k : nat -> string -> option nat)
    (e : nat) :
  run (Alt a b) i s k = Some e -> run a i s k = Some e \/ run b i s k = Some e.
Proof. cbn [run]. destruct (run a i s k); simpl; [by left | by right]. Qed.

Lemma run_Char_inv (c : ascii) (i : nat) (s : string) (k : nat -> string -> option nat)
    (e : nat) :
  run (Char c) i s k = Some e -> exists s', s = String c s' /\ k (S i) s' = Some e.
Proof.
  cbn [run]. destruct s as [|c' s']; [done|].
  destruct (Ascii.eqb_spec c' c) as [->|]; [|done]. by exists s'.
Qed.

Lemma run_Cat_Char_inv (c : ascii) (b : Regexp) (i : nat) (s : string)
    (k : nat -> string -> option nat) (e : nat) :
  run (Cat (Char c) b) i s k = Some e ->
  exists s', s = String c s' /\ run b (S i) s' k = Some e.
Proof. apply (run_Char_inv c i s (fun j t => run b j t k)). Qed.

Lemma run_Class_inv (ranges : list (ascii * ascii)) (i : nat) (s : string)
    (k : nat -> string -> option nat) (e : nat) :
  run (Class ranges) i s k = Some e ->
  exists c s', s = String c s' /\ inClass ranges c = true /\ k (S i) s' = Some e.
Proof.
  cbn [run]. destruct s as [|c s']; [done|].
  destruct (inClass ranges c) eqn:Hc; [|done]. by exists c, s'.
Qed.

(** What the pattern matches, where it matches: a run of the class with
    the closing bracket after it, or [none]. *)
Lemma schedulerPattern_matched (b : nat) (v : string) (e : nat) :
  run (Alt bracketToken noneWord) b v (fun j _ => Some j) = Some e ->
  exists t rest, v = (t ++ rest)%string /\ e = b + String.length t /\
    ((exists d, t = (d ++ "]")%string /\ someIn schedulerRanges d = true) \/
     t = "none"%string).
Proof.
  intros Hrun. apply run_Alt_inv in Hrun as [Hrun|Hrun].
  - unfold bracketToken in Hrun. rewrite run_Cat_Plus_Class in Hrun.
    apply plusClass_matched in Hrun as (d & rest0 & -> & Hd & Hrun).
    apply run_Char_inv in Hrun as (rest & -> & [= <-]).
    exists (d ++ "]")%string, rest. split; [|split].
    + by rewrite <- append_assoc.
    + rewrite length_append. simpl. lia.
    + left. by exists d.
  - unfold noneWord in Hrun.
    apply run_Cat_Char_inv in Hrun as (s1 & -> & Hrun).
    apply run_Cat_Char_inv in Hrun as (s2 & -> & Hrun).
    apply run_Cat_Char_inv in Hrun as (s3 & -> & Hrun).
    apply run_Char_inv in Hrun as (s4 & -> & [= <-]).
    exists "none"%string, s4. split; [done|]. split; [simpl; lia | by right].
Qed.

Lemma Find_scheduler_matched (line t : string) :
  Find (Alt bracketToken noneWord) line = Some t ->
  exists p rest, line = (p ++ t ++ rest)%string /\
    ((exists d, t = (d ++ "]")%string /\ someIn schedulerRanges d = true) \/
     t = "none"%string).
Proof.
  unfold Find.
  destruct (search (Alt bracketToken noneWord) 0 line) as [[b e]|] eqn:Hs; [|done].
  apply search_found in Hs as (u & v & -> & -> & Hrun).
  apply schedulerPattern_matched in Hrun as (t' & rest & -> & -> & Hshape).
  replace (0 + String.length u + String.length t' - (0 + String.length u))
    with (String.length t') by lia.
  rewrite Nat.add_0_l, substring_middle. intros [= <-]. by exists u, rest.
Qed.

Lemma TrimRight_close (u : string) :
  bytes.TrimRight (u ++ "]")%string "[]" = bytes.TrimRight u "[]".
Proof.
  induction u as [|c u IH]; [reflexivity|].
  rewrite append_cons. cbn [bytes.TrimRight]. by rewrite IH.
Qed.

Lemma Trim_close (d : string) : bytes.Trim (d ++ "]")%string "[]" = bytes.Trim d "[]".
Proof.
  unfold bytes.Trim. induction d as [|c d IH]; [reflexivity|].
  rewrite append_cons. cbn [bytes.TrimLeft].
  destruct (bytes.inCutset "[]" c); [exact IH|].
  rewrite <- append_cons. apply TrimRight_close.
Qed.

Lemma TrimLeft_suffix (s cutset : string) :
  exists a, s = (a ++ bytes.TrimLeft s cutset)%string.
Proof.
  induction s as [|c s [a IH]]; [by exists EmptyString|]. simpl.
  destruct (bytes.inCutset cutset c); [|by exists EmptyString].
  exists (String c a). by rewrite append_cons, <- IH.
Qed.

Lemma TrimRight_prefix (s cutset : string) :
  exists b, s = (bytes.TrimRight s cutset ++ b)%string.
Proof.
  induction s as [|c s [b IH]]; [by exists EmptyString|]. cbn [bytes.TrimRight].
  destruct (bytes.TrimRight s cutset) as [|c' t] eqn:Ht.
  - destruct (bytes.inCutset cutset c); [by exists (String c s)|].
    exists s. by rewrite append_cons, append_nil_l.
  - exists b. by rewrite append_cons, <- IH.
Qed.

Lemma Trim_piece (s cutset : string) :
  exists a b, s = (a ++ bytes.Trim s cutset ++ b)%string.
Proof.
  unfold bytes.Trim.
  destruct (TrimLeft_suffix s cutset) as [a Ha].
  destruct (TrimRight_prefix (bytes.TrimLeft s cutset) cutset) as [b Hb].
  exists a, b. by rewrite <- Hb.
Qed.

Lemma allIn_append (ranges : list (ascii * ascii)) (s t : string) :
  allIn ranges (s ++ t)%string = allIn ranges s && allIn ranges t.
Proof.
  induction s as [|c s IH]; [done|]. rewrite append_cons. simpl.
  by rewrite IH, andb_assoc.
Qed.

Section SchedulerResults.

Variable Clean : string -> string.

(** X10.  What [getDeviceScheduler] returns without an error is a piece
    of the first line of the scheduler file, and is made of lower-case
    letters, hyphens and opening brackets only: it has no space and no
    closing bracket.  With an error it returns the empty string, and the
    error is that of the read, [io.EOF] for a file that is empty, or
    cites the line in which the pattern found nothing. *)
Theorem getDeviceScheduler_results (fs : os.FileSystem) (devpath : string) :
  (forall sch,
     getDeviceScheduler Clean fs devpath = (sch, None) ->
     exists content line p rest,
       os.ReadFile fs (Clean (devpath ++ "/queue/scheduler")%string) = inl content /\
       bufio.ReadLine content = (line, None) /\
       line = (p ++ sch ++ rest)%string /\
       allIn schedulerRanges sch = true) /\
  (forall sch e,
     getDeviceScheduler Clean fs devpath = (sch, Some e) ->
     sch = EmptyString /\
     (os.ReadFile fs (Clean (devpath ++ "/queue/scheduler")%string) = inr e \/
      (os.ReadFile fs (Clean (devpath ++ "/queue/scheduler")%string) = inl EmptyString /\
       e = io.EOF) \/
      exists content line,
        os.ReadFile fs (Clean (devpath ++ "/queue/scheduler")%string) = inl content /\
        bufio.ReadLine content = (line, None) /\
        Find (MustCompile "[[a-z-]+]|none") line = None /\
        e = ("unknown scheduler: " ++ line)%string)).
Proof.
  unfold getDeviceScheduler. rewrite schedulerPattern_compiled.
  change (MustCompile "[[a-z-]+]|none") with (Alt bracketToken noneWord).
  destruct (os.ReadFile fs _) as [content|err].
  2:{ split; [done|]. intros sch e [= <- <-]. by split; [|left]. }
  destruct (bufio.ReadLine content) as [line [err|]] eqn:Hline.
  { split; [done|]. intros sch e [= <- <-]. split; [done|]. right. left.
    unfold bufio.ReadLine in Hline.
    destruct content as [|c content]; [by injection Hline as _ <-|].
    destruct (bufio.beforeLF _); [done|]. by destruct (Nat.eqb _ _). }
  destruct (Find (Alt bracketToken noneWord) line) as [t|] eqn:Hfind.
  2:{ split; [done|]. intros sch e [= <- <-]. split; [done|]. right. right.
      by exists content, line. }
  split; [|done]. intros sch [= <-]. exists content, line.
  apply Find_scheduler_matched in Hfind as (p & rest & -> & [(d & -> & Hd)| ->]).
  - rewrite Trim_close. destruct (Trim_piece d "[]") as (a & b & Hpiece).
    assert (allIn schedulerRanges d = true) as Hall by (by destruct d).
    revert Hpiece. generalize (bytes.Trim d "[]"). intros sch ->.
    rewrite !allIn_append, !andb_true_iff in Hall. destruct Hall as (Ha & Ht & Hb).
    exists (p ++ a)%string, (b ++ "]" ++ rest)%string.
    split; [done|]. split; [done|]. split; [|done].
    by rewrite <- !append_assoc.
  - exists p, rest. by split; [|split; [|split]].
Qed.

End SchedulerResults.

(** ** The names the default pattern excludes *)

(** A number: one or more digits. *)
Definition number (d : string) : Prop := someIn digitRanges d = true.

(** The names of the five shapes of the pattern. *)
Definition partitionName (name : string) : Prop :=
  (exists d, number d /\
     (name = "ram" ++ d \/ name = "loop" ++ d \/ name = "fd" ++ d)%string) \/
  (exists c d, inClass lowerRanges c = true /\ number d /\
     (name = "hd" ++ String c d \/ name = "sd" ++ String c d \/
      name = "vd" ++ String c d \/ name = "xvd" ++ String c d)%string) \/
  (exists d1 d2 d3, number d1 /\ number d2 /\ number d3 /\
     name = ("nvme" ++ d1 ++ "n" ++ d2 ++ "p" ++ d3)%string).

Lemma nvmeTail_matched (i : nat) (s : string) (e : nat) :
  run nvmeTail i s numberToEnd = Some e ->
  exists d1 d2 d3, number d1 /\ number d2 /\ number d3 /\
    s = (d1 ++ "n" ++ d2 ++ "p" ++ d3)%string.
Proof.
  unfold nvmeTail. rewrite run_Cat_Plus_Class. intros Hrun.
  apply plusClass_matched in Hrun as (d1 & r1 & -> & Hd1 & Hrun).
  apply run_Cat_Char_inv in Hrun as (s2 & -> & Hrun).
  rewrite run_Cat_Plus_Class in Hrun.
  apply plusClass_matched in Hrun as (d2 & r2 & -> & Hd2 & Hrun).
  apply run_Char_inv in Hrun as (d3 & -> & Hrun).
  apply numberToEnd_matched in Hrun. by exists d1, d2, d3.
Qed.

(** X11.  The default pattern excludes the names of five shapes and no
    other: [ram], [loop] or [fd] and a number; [hd], [sd], [vd] or [xvd],
    one lower-case letter and a number; and [nvme], a number, [n], a
    number, [p] and a number.  Every other name is retained: the whole
    disks, the NVMe namespaces, and the names of other classes, with or
    without a number. *)
Theorem default_pattern_exact (name : string) :
  excluded name = true <-> partitionName name.
Proof.
  split.
  - rewrite excluded_run.
    destruct (run deviceClasses 0 name numberToEnd) as [e|] eqn:Hrun; [|done].
    intros _. unfold deviceClasses in Hrun.
    apply run_Alt_inv in Hrun as [Hrun|Hrun].
    { apply run_Cat_Char_inv in Hrun as (s1 & -> & Hrun).
      apply run_Cat_Char_inv in Hrun as (s2 & -> & Hrun).
      apply run_Char_inv in Hrun as (d & -> & Hrun).
      apply numberToEnd_matched in Hrun. left. exists d. split; [done|]. by left. }
    apply run_Alt_inv in Hrun as [Hrun|Hrun].
    { apply run_Cat_Char_inv in Hrun as (s1 & -> & Hrun).
      apply run_Cat_Char_inv in Hrun as (s2 & -> & Hrun).
      apply run_Cat_Char_inv in Hrun as (s3 & -> & Hrun).
      apply run_Char_inv in Hrun as (d & -> & Hrun).
      apply numberToEnd_matched in Hrun. left. exists d. split; [done|]. right. by left. }
    apply run_Alt_inv in Hrun as [Hrun|Hrun].
    { apply run_Cat_Char_inv in Hrun as (s1 & -> & Hrun).
      apply run_Char_inv in Hrun as (d & -> & Hrun).
      apply numberToEnd_matched in Hrun. left. exists d. split; [done|]. right. by right. }
    apply run_Alt_inv in Hrun as [Hrun|Hrun].
    { right. left.
      change (run (Alt (Char "h") (Alt (Char "s") (Alt (Char "v") (Cat (Char "x") (Char "v")))))
                0 name
                (fun j t => run (Cat (Char "d") (Class lowerRanges)) j t numberToEnd) = Some e)
        in Hrun.
      assert (forall j t,
                run (Cat (Char "d") (Class lowerRanges)) j t numberToEnd = Some e ->
                exists c d, inClass lowerRanges c = true /\ number d /\
                  t = String "d" (String c d)) as Htail.
      { intros j t Ht. apply run_Cat_Char_inv in Ht as (s1 & -> & Ht).
        apply run_Class_inv in Ht as (c & d & -> & Hc & Ht).
        apply numberToEnd_matched in Ht. by exists c, d. }
      apply run_Alt_inv in Hrun as [Hrun|Hrun].
      { apply run_Char_inv in Hrun as (s1 & -> & Hrun).
        apply Htail in Hrun as (c & d & Hc & Hd & ->).
        exists c, d. split; [done|]. split; [done|]. by left. }
      apply run_Alt_inv in Hrun as [Hrun|Hrun].
      { apply run_Char_inv in Hrun as (s1 & -> & Hrun).
        apply Htail in Hrun as (c & d & Hc & Hd & ->).
        exists c, d. split; [done|]. split; [done|]. right. by left. }
      apply run_Alt_inv in Hrun as [Hrun|Hrun].
      { apply run_Char_inv in Hrun as (s1 & -> & Hrun).
        apply Htail in Hrun as (c & d & Hc & Hd & ->).
        exists c, d. split; [done|]. split; [done|]. right. right. by left. }
      apply run_Cat_Char_inv in Hrun as (s1 & -> & Hrun).
      apply run_Char_inv in Hrun as (s2 & -> & Hrun).
      apply Htail in Hrun as (c & d & Hc & Hd & ->).
      exists c, d. split; [done|]. split; [done|]. right. right. by right. }
    right. right.
    apply run_Cat_Char_inv in Hrun as (s1 & -> & Hrun).
    apply run_Cat_Char_inv in Hrun as (s2 & -> & Hrun).
    apply run_Cat_Char_inv in Hrun as (s3 & -> & Hrun).
    apply run_Cat_Char_inv in Hrun as (s4 & -> & Hrun).
    apply nvmeTail_matched in Hrun as (d1 & d2 & d3 & Hd1 & Hd2 & Hd3 & ->).
    by exists d1, d2, d3.
  - intros [(d & Hd & Hname)|[(c & d & Hc & Hd & Hname)|(d1 & d2 & d3 & Hd1 & Hd2 & Hd3 & ->)]].
    + destruct (excluded_class_number d Hd) as (Hram & Hloop & Hfd).
      by destruct Hname as [->|[->| ->]].
    + destruct (excluded_disk_partition c d Hc Hd) as (Hhd & Hsd & Hvd & Hxvd).
      by destruct Hname as [->|[->|[->| ->]]].
    + by apply excluded_nvme_partition.
Qed.

(** ** The panics of the orchestrator *)

Lemma class_ascii (c : ascii) :
  inClass schedulerRanges c = true -> (byte c <? 0x80)%N = true.
Proof. destruct c as [[] [] [] [] [] [] [] []]; vm_compute; intros; try done. Qed.

Lemma allIn_ValidString (s : string) :
  allIn schedulerRanges s = true -> utf8.ValidString s = true.
Proof.
  induction s as [|c s IH]; [done|]. simpl allIn. rewrite andb_true_iff.
  intros [Hc Hs]. cbn [utf8.ValidString]. rewrite (class_ascii c Hc). by apply IH.
Qed.

Lemma sendAll_all_Some (calls : list (option prometheus.Metric)) :
  Forall is_Some calls -> (sendAll calls).2 = false.
Proof.
  induction 1 as [|call calls [m ->] _ IH]; simpl; [done|].
  by destruct (sendAll calls).
Qed.

Section SchedulerChars.

Variable Clean : string -> string.

Lemma getDeviceScheduler_chars (fs : os.FileSystem) (devpath sch : string) :
  getDeviceScheduler Clean fs devpath = (sch, None) -> allIn schedulerRanges sch = true.
Proof.
  unfold getDeviceScheduler. rewrite schedulerPattern_compiled.
  destruct (os.ReadFile fs _) as [content|err]; [|done].
  destruct (bufio.ReadLine content) as [line [err|]]; [done|].
  destruct (Find (Alt bracketToken noneWord) line) as [t|] eqn:Hfind; [|done].
  intros [= <-].
  apply Find_scheduler_matched in Hfind as (p & rest & -> & [(d & -> & Hd)| ->]); [|done].
  rewrite Trim_close. destruct (Trim_piece d "[]") as (a & b & Hpiece).
  assert (allIn schedulerRanges d = true) as Hall by (by destruct d).
  revert Hpiece. generalize (bytes.Trim d "[]"). intros sch ->.
  rewrite !allIn_append, !andb_true_iff in Hall. tauto.
Qed.

End SchedulerChars.

Section PanicExtras.

Variable ParseFloat : string -> float * option error.
Variable Clean : string -> string.
Variable rangeMap : gmap string (list float) -> list (string * list float).

(** X12.  [Update] with the descriptors of [NewDiskstatsCollector] does
    not panic when none of the eight descriptors holds an error (the
    constant labels have valid names, none of them the name of a variable
    label of the descriptor, and values that are valid UTF-8) and the
    names of the devices, those of the counter map and the last elements
    of the paths of the glob, are valid UTF-8: the other label values,
    the types of operation, [rotational] and [scheduler], are always
    valid. *)
Theorem Update_returns (labels : gmap string string) (fs : os.FileSystem) :
  (forall m, rangeMap m ≡ₚ map_to_list m) ->
  Forall (fun d => prometheus.err (desc d) = false)
    [ completed (NewDiskstatsCollector labels).1; merged (NewDiskstatsCollector labels).1;
      bytes (NewDiskstatsCollector labels).1; times (NewDiskstatsCollector labels).1;
      ionow (NewDiskstatsCollector labels).1; iotime (NewDiskstatsCollector labels).1;
      iotimeweighted (NewDiskstatsCollector labels).1;
      storages (NewDiskstatsCollector labels).1 ] ->
  (forall stats dev,
     getDiskstats ParseFloat fs (Some (MustCompile ignoredDevicesPattern)) = (Some stats, None) ->
     is_Some (stats !! dev) -> utf8.ValidString dev = true) ->
  (forall dirs devpath,
     os.Glob fs "/sys/block/*" = inl dirs -> devpath ∈ dirs ->
     utf8.ValidString (deviceName devpath) = true) ->
  (Update ParseFloat Clean rangeMap (NewDiskstatsCollector labels).1 fs).2 <> Panicked.
Proof.
  intros Hperm Hdescs Hdevs Hdirs.
  rewrite !Forall_cons in Hdescs.
  destruct Hdescs as (Hcompleted & Hmerged & Hbytes & Htimes & Hionow & Hiotime &
                      Hweighted & Hstorages & _).
  set (c := (NewDiskstatsCollector labels).1) in *.
  destruct (getDiskstats ParseFloat fs (c_ignoredDevicesPattern c)) as [stats [e|]] eqn:Hstats.
  { by rewrite (Update_error _ _ _ _ _ _ _ Hstats). }
  assert ((sendStats rangeMap c (default ∅ stats)).2 = false) as Hcounters.
  { apply sendAll_all_Some, Forall_forall. intros call Hcall.
    apply list_elem_of_In, in_flat_map in Hcall as ([dev stat] & Hin & Hcall).
    apply list_elem_of_In in Hin, Hcall. rewrite (Hperm _) in Hin.
    apply elem_of_map_to_list in Hin.
    destruct stats as [stats|]; simpl in Hin; [|by rewrite lookup_empty in Hin].
    assert (utf8.ValidString dev = true) as Hdev by (by apply (Hdevs stats dev)).
    rewrite sendStat_table in Hcall.
    apply list_elem_of_fmap in Hcall as ([[i d] ty] & -> & Hpos).
    apply subseteq_take in Hpos. unfold callAt. cbn [fst snd].
    rewrite mustNewConstMetric_accepts.
    assert (accepts d (dev :: ty) = true) as ->; [|done].
    unfold accepts. cbn [forallb]. rewrite Hdev.
    unfold positions in Hpos. rewrite !elem_of_cons, elem_of_nil in Hpos.
    repeat (destruct Hpos as [Hpos|Hpos]); try done; injection Hpos as -> -> ->;
      (apply andb_true_intro; split;
       [ apply andb_true_intro; split;
         [ apply negb_true_iff;
           first [ exact Hcompleted | exact Hmerged | exact Hbytes | exact Htimes
                 | exact Hionow | exact Hiotime | exact Hweighted ]
         | reflexivity ]
       | vm_compute; reflexivity ]). }
  destruct (getStorageProperties Clean fs "/sys/block/*" (c_ignoredDevicesPattern c))
    as [sts [e|]] eqn:Hprops.
  { rewrite (Update_counters_only _ _ _ _ _ _ _ _ Hstats Hprops). cbn [snd].
    by rewrite Hcounters. }
  rewrite (Update_all _ _ _ _ _ _ _ Hstats Hprops), Hcounters. cbn [snd].
  assert ((sendStorages c sts).2 = false) as ->; [|done].
  apply sendAll_all_Some, Forall_forall. intros call Hcall.
  apply list_elem_of_fmap in Hcall as (s & -> & Hs).
  unfold getStorageProperties in Hprops.
  destruct (os.Glob fs "/sys/block/*") as [dirs|err] eqn:Hglob; [|done].
  injection Hprops as <-. rewrite storagesLoop_omap in Hs. simpl in Hs.
  apply list_elem_of_omap in Hs as (devpath & Hin & Hs).
  apply propertiesOf_device in Hs as (Hname & _ & Hrot & Hsch).
  apply getDeviceRotational_ok in Hrot as (content & _ & _ & Hval).
  apply getDeviceScheduler_chars, allIn_ValidString in Hsch.
  unfold sendStorage. rewrite mustNewConstMetric_accepts.
  assert (accepts (storages c) [device s; rotational s; scheduler s] = true) as ->; [|done].
  unfold accepts. cbn [forallb]. rewrite Hstorages, Hname, (Hdirs dirs devpath eq_refl Hin), Hsch.
  destruct Hval as [-> | ->]; reflexivity.
Qed.

End PanicExtras.

(** ** On the sample host *)

(** The line of [sda1] cut after its second counter, and a source with
    that line between two lines of 14 fields. *)
Definition short_line : string := "   8       1 sda1 131 0".

Definition truncated_diskstats : string :=
  (sda_line ++ LF ++ short_line ++ LF ++ loop0_line ++ LF)%string.

(** A disk whose scheduler file lists [none] before the scheduler in
    use. *)
Definition none_first_fs : os.FileSystem :=
  {| os.Open := fun name => inr ("open " ++ name ++ ": no such file or directory")%string;
     os.Glob := fun pattern => inl ["/sys/block/sda"%string];
     os.ReadFile := fun name =>
       if String.eqb name "/sys/block/sda/queue/rotational" then inl ("0" ++ LF)%string
       else if String.eqb name "/sys/block/sda/queue/scheduler"
       then inl ("none [mq-deadline] kyber bfq" ++ LF)%string
       else inr ("open " ++ name ++ ": no such file or directory")%string |}.

Lemma parseDiskstats_first_bad_line_witness :
  parseDiskstats decimalParseFloat (io.mkReader truncated_diskstats None) None
  = (None, Some ("invalid /proc/diskstats file, too few columns in line: " ++ short_line)%string).
Proof.
  apply (parseDiskstats_first_bad_line decimalParseFloat
           (io.mkReader truncated_diskstats None) None [sda_line] [loop0_line] short_line).
  - unfold noLongLine. vm_compute. repeat constructor.
  - reflexivity.
  - constructor; [left; reflexivity | constructor].
  - intros [H|[H|H]]; vm_compute in H; discriminate H.
Defined.

Lemma parseDiskstats_vector_lengths_witness :
  length (parseStat decimalParseFloat (strings.Fields sda_line)) = 11 \/
  length (parseStat decimalParseFloat (strings.Fields sda_line)) = 15 \/
  length (parseStat decimalParseFloat (strings.Fields sda_line)) = 17.
Proof.
  apply (parseDiskstats_vector_lengths decimalParseFloat (io.mkReader two_devices None)
           (Some (MustCompile ignoredDevicesPattern))
           {[ "sda"%string := parseStat decimalParseFloat (strings.Fields sda_line) ]}
           None "sda").
  - vm_compute. reflexivity.
  - vm_compute. reflexivity.
Defined.

Lemma Update_samples_by_position_witness :
  length (Update decimalParseFloat (fun p => p) map_to_list sample_collector sample_fs).1
  = sum_list_with (fun entry : string * list float => length entry.2)
      (map_to_list
         ({[ "sda"%string := parseStat decimalParseFloat (strings.Fields sda_line) ]}
          : gmap string (list float))) +
    match getStorageProperties (fun p => p) sample_fs "/sys/block/*"
            (c_ignoredDevicesPattern sample_collector) with
    | (storages, None) => length storages
    | (_, Some _) => 0
    end.
Proof.
  refine (proj2 (proj2 (Update_samples_by_position decimalParseFloat (fun p => p) map_to_list
                          sample_collector sample_fs
                          {[ "sda"%string :=
                               parseStat decimalParseFloat (strings.Fields sda_line) ]}
                          _ _) _)).
  - intros m. reflexivity.
  - vm_compute. reflexivity.
  - vm_compute. reflexivity.
Defined.

Lemma Update_label_counts_witness :
  exists d value ls,
    mustNewConstMetric d value ls
    = Some (metricOf (bytes sample_collector) 609448 ["sda"; "reads"]%string) /\
    d ∈ [ completed (NewDiskstatsCollector ∅).1; merged (NewDiskstatsCollector ∅).1;
          bytes (NewDiskstatsCollector ∅).1; times (NewDiskstatsCollector ∅).1;
          ionow (NewDiskstatsCollector ∅).1; iotime (NewDiskstatsCollector ∅).1;
          iotimeweighted (NewDiskstatsCollector ∅).1;
          storages (NewDiskstatsCollector ∅).1 ] /\
    length ls = length (prometheus.variableLabels (desc d)) /\
    prometheus.constLabels (desc d) = ∅.
Proof.
  apply (Update_label_counts decimalParseFloat (fun p => p) map_to_list ∅ sample_fs).
  apply (list_elem_of_lookup_2 _ 2). vm_compute. reflexivity.
Defined.

Lemma getStorageProperties_in_order_witness :
  (getStorageProperties (fun p => p) sample_fs "/sys/block/*"
     (Some (MustCompile ignoredDevicesPattern))).2 = None /\
  exists kept,
    sublist kept ["/sys/block/loop0"; "/sys/block/sda"; "/sys/block/sdb"; "/sys/block/sr0"]%string /\
    Forall2 (readFrom (fun p => p) sample_fs (Some (MustCompile ignoredDevicesPattern)))
      (getStorageProperties (fun p => p) sample_fs "/sys/block/*"
         (Some (MustCompile ignoredDevicesPattern))).1 kept /\
    forall devpath,
      devpath ∈ kept <->
      devpath ∈ ["/sys/block/loop0"; "/sys/block/sda"; "/sys/block/sdb"; "/sys/block/sr0"]%string /\
      readable (fun p => p) sample_fs (Some (MustCompile ignoredDevicesPattern)) devpath.
Proof.
  apply (getStorageProperties_in_order (fun p => p) sample_fs "/sys/block/*"
           (Some (MustCompile ignoredDevicesPattern))).
  reflexivity.
Defined.

Lemma getDeviceScheduler_bracketed_witness :
  getDeviceScheduler (fun p => p) sample_fs "/sys/block/sda" = ("mq-deadline"%string, None).
Proof.
  apply (getDeviceScheduler_bracketed (fun p => p) sample_fs "/sys/block/sda"
           ("noop [mq-deadline] kyber" ++ LF)%string "noop " "mq-deadline" " kyber").
  - reflexivity.
  - reflexivity.
  - reflexivity.
  - reflexivity.
Defined.

Lemma getDeviceScheduler_none_listed_witness :
  getDeviceScheduler (fun p => p) none_first_fs "/sys/block/sda" = ("none"%string, None).
Proof.
  apply (getDeviceScheduler_none_listed (fun p => p) none_first_fs "/sys/block/sda"
           ("none [mq-deadline] kyber bfq" ++ LF)%string "" " [mq-deadline] kyber bfq").
  - reflexivity.
  - reflexivity.
  - reflexivity.
  - reflexivity.
Defined.

Lemma Update_returns_witness :
  (Update decimalParseFloat (fun p => p) map_to_list (NewDiskstatsCollector ∅).1 sample_fs).2
  <> Panicked.
Proof.
  apply (Update_returns decimalParseFloat (fun p => p) map_to_list ∅ sample_fs).
  - intros m. reflexivity.
  - vm_compute. repeat constructor.
  - intros stats dev Hstats [stat Hdev].
    assert (getDiskstats decimalParseFloat sample_fs (Some (MustCompile ignoredDevicesPattern))
            = (Some {[ "sda"%string := parseStat decimalParseFloat (strings.Fields sda_line) ]},
               None)) as Hsample by (vm_compute; reflexivity).
    rewrite Hsample in Hstats. injection Hstats as <-.
    apply lookup_singleton_Some in Hdev as [<- _]. reflexivity.
  - intros dirs devpath Hglob Hin. injection Hglob as <-.
    rewrite !elem_of_cons, elem_of_nil in Hin.
    destruct Hin as [->|[->|[->|[->|[]]]]]; reflexivity.
Defined.
